(** * The in-process cache layer of the isucon5 qualifier application

    A shallow embedding of the caches of [app.go], [entrycache.go] and
    [footprints.go]: the user and profile mirrors ([UserRepo],
    [ProfileRepo]), the friendship graph ([FriendRepo]), the two recency
    windows ([EntryCache], [CommentCache]) and the lazy footprint cache
    ([FoopprintCache]).

    Conventions.
    - Go's [int] is modelled as [Z]; the caches only compare and store such
      values, no arithmetic is performed on them.  Slice lengths and
      indices are [nat].
    - A slice [[]T] is a [list T]; a [map[K]V] is a [gmap K V]; a pointer
      [*T] to a record that is never mutated after its creation is an
      [option T] with [None] for [nil].
    - [time.Time] is an integer time stamp.
    - Every method body runs under the lock of its receiver, so a method is
      one atomic step on the state of the process.
    - The SQL database is an external collaborator: it is an abstract
      [Store] whose queries return the already scanned rows. *)

From Stdlib Require Import ZArith.
From stdpp Require Import gmap strings list fin_maps.
From Equations Require Import Equations.

Open Scope Z_scope.
Open Scope nat_scope.

(** ** Data model *)

Definition Time := Z.
Bind Scope Z_scope with Time.

(** [type User struct] *)
Record User := mkUser {
  User_ID : Z;
  User_AccountName : string;
  User_NickName : string;
  User_Email : string
}.

(** [type Profile struct]; [mysql.NullTime] is an optional time. *)
Record Profile := mkProfile {
  Profile_UserID : Z;
  Profile_FirstName : string;
  Profile_LastName : string;
  Profile_Sex : string;
  Profile_Birthday : option Time;
  Profile_Pref : string;
  Profile_UpdatedAt : Time
}.

(** [type Entry struct] *)
Record Entry := mkEntry {
  Entry_ID : Z;
  Entry_UserID : Z;
  Entry_Private : bool;
  Entry_Title : string;
  Entry_Content : string;
  Entry_CreatedAt : Time;
  Entry_NumComments : Z
}.

(** [type Comment struct] *)
Record Comment := mkComment {
  Comment_ID : Z;
  Comment_EntryID : Z;
  Comment_UserID : Z;
  Comment_Comment : string;
  Comment_CreatedAt : Time;
  Comment_EntryOwnerID : Z;
  Comment_private : bool
}.

(** [type Footprint struct] *)
Record Footprint := mkFootprint {
  Footprint_UserID : Z;
  Footprint_OwnerID : Z;
  Footprint_CreatedAt : Time;
  Footprint_UpdatedAt : Time
}.

(** A row of [SELECT id, user_id, private, title, created_at FROM entries2],
    as [EntryCache.Init] scans it: [private] is still an integer. *)
Record EntryRow := mkEntryRow {
  row_id : Z;
  row_userID : Z;
  row_private : Z;
  row_title : string;
  row_createdAt : Time
}.

(** ** Slices *)

Section Slices.
Context {A : Type}.

(** [s[i], s[j] = s[j], s[i]]: both operands are read first (an index out
    of range panics, [None]), then both elements are written. *)
Definition swap (i j : nat) (s : list A) : option (list A) :=
  x ← s !! j;
  y ← s !! i;
  Some (<[j := y]> (<[i := x]> s)).

(** A value together with the equation that it is the value of [a]:
    the loop below needs the outcome of [swap] to see that the slice
    keeps its length. *)
Definition inspect {B : Type} (a : B) : {b : B | a = b} := exist _ a eq_refl.

(** The loop
    [for i := 0; i < len(s)/2; i++ { s[i], s[len(s)-1-i] = s[len(s)-1-i], s[i] }]
    from the value [i] of its counter on. *)
Equations? reverse_loop (i : nat) (s : list A) : option (list A)
  by wf (length s / 2 - i) lt :=
  reverse_loop i s with decide (i < length s / 2) => {
    | left _ with inspect (swap i (length s - 1 - i) s) => {
        | exist _ (Some s') _ => reverse_loop (S i) s'
        | exist _ None _ => None };
    | right _ => Some s }.
Proof.
  unfold swap in e.
  destruct (s !! (length s - 1 - i)) as [x|]; simpl in e; [|discriminate].
  destruct (s !! i) as [y|]; simpl in e; [|discriminate].
  injection e as <-. rewrite !length_insert. lia.
Qed.

(** [s = append(s, x); if len(s) > 1000 { s = s[len(s)-1000:] }] *)
Definition append_trim (s : list A) (x : A) : list A :=
  let s := s ++ [x] in
  if decide (1000 < length s) then drop (length s - 1000) s else s.
End Slices.

(** ** The caches, as data *)

(** [type UserRepo struct]: [users map[int]*User], [byMail] and
    [byAccount map[string]int].  A [nil] map reads as the empty map. *)
Record UserRepo := mkUserRepo {
  users : gmap Z User;
  byMail : gmap string Z;
  byAccount : gmap string Z
}.

(** [type ProfileRepo struct] *)
Record ProfileRepo := mkProfileRepo {
  profiles : gmap Z Profile
}.

(** [type FriendRepo struct]: [friend map[int]map[int]bool].  The inner
    maps are shared by reference in Go; here the outer map holds their
    current contents, and every write through an inner map is written back
    into the outer map. *)
Record FriendRepo := mkFriendRepo {
  friend : gmap Z (gmap Z bool)
}.

(** [type CommentCache struct] *)
Record CommentCache := mkCommentCache {
  CommentCache_Recent : list Comment
}.

(** [type EntryCache struct] *)
Record EntryCache := mkEntryCache {
  EntryCache_Recent : list Entry
}.

(** [type FoopprintCache struct] *)
Record FoopprintCache := mkFoopprintCache {
  cache : gmap Z (list Footprint)
}.

(** ** Methods that touch only their receiver *)

(** [func (r *UserRepo) Get(id int) *User] *)
Definition UserRepo_Get (r : UserRepo) (id : Z) : option User :=
  users r !! id.

(** [func (r *UserRepo) GetByMail(email string) *User]: a key that is
    absent from [byMail] reads as the zero value 0. *)
Definition UserRepo_GetByMail (r : UserRepo) (email : string) : option User :=
  let uid := default 0%Z (byMail r !! email) in
  if decide (uid ≠ 0%Z) then users r !! uid else None.

(** [func (r *UserRepo) GetByAccount(account string) *User] *)
Definition UserRepo_GetByAccount (r : UserRepo) (account : string) : option User :=
  let uid := default 0%Z (byAccount r !! account) in
  if decide (uid ≠ 0%Z) then users r !! uid else None.

(** The three fresh maps of [Init]. *)
Definition UserRepo_fresh : UserRepo := mkUserRepo ∅ ∅ ∅.

(** One turn of the [rows.Next()] loop of [Init]:
    [r.users[u.ID] = &u; r.byMail[u.Email] = u.ID;
     r.byAccount[u.AccountName] = u.ID]. *)
Definition UserRepo_add (r : UserRepo) (u : User) : UserRepo :=
  mkUserRepo (<[User_ID u := u]> (users r))
             (<[User_Email u := User_ID u]> (byMail r))
             (<[User_AccountName u := User_ID u]> (byAccount r)).

(** The whole loop, over the rows in the order the query returns them. *)
Definition UserRepo_load (rows : list User) : UserRepo :=
  foldl UserRepo_add UserRepo_fresh rows.

(** [func (r *ProfileRepo) Get(id int) *Profile] *)
Definition ProfileRepo_Get (r : ProfileRepo) (id : Z) : option Profile :=
  profiles r !! id.

(** [func (r *ProfileRepo) Update(id int, prof *Profile)] *)
Definition ProfileRepo_Update (r : ProfileRepo) (id : Z) (prof : Profile)
  : ProfileRepo :=
  mkProfileRepo (<[id := prof]> (profiles r)).

(** The loop of [Init]: [r.profiles[prof.UserID] = &prof]. *)
Definition ProfileRepo_load (rows : list Profile) : ProfileRepo :=
  foldl (λ r prof, ProfileRepo_Update r (Profile_UserID prof) prof)
        (mkProfileRepo ∅) rows.

(** [func (fr *FriendRepo) Reset()] *)
Definition FriendRepo_Reset (fr : FriendRepo) : FriendRepo := mkFriendRepo ∅.

(** [func (fr *FriendRepo) Insert(a, b int)].  [aa] is the adjacency map
    of [a], made and stored if [fr.friend[a]] is [nil]; [aa[b] = true]
    writes through it.  The adjacency map of [b] is then read from the
    updated outer map. *)
Definition FriendRepo_Insert (fr : FriendRepo) (a b : Z) : FriendRepo :=
  if decide (a = b) then fr else
  let aa := default ∅ (friend fr !! a) in
  let friend1 := <[a := <[b := true]> aa]> (friend fr) in
  let bb := default ∅ (friend1 !! b) in
  mkFriendRepo (<[b := <[a := true]> bb]> friend1).

(** [func (fr *FriendRepo) IsFriend(a, b int) bool]: a key absent from
    the inner map reads as [false]. *)
Definition FriendRepo_IsFriend (fr : FriendRepo) (a b : Z) : bool :=
  if decide (a = b) then true else
  match friend fr !! a with
  | None => false
  | Some aa => default false (aa !! b)
  end.

(** [func (fr *FriendRepo) Count(userID int) int] *)
Definition FriendRepo_Count (fr : FriendRepo) (userID : Z) : Z :=
  match friend fr !! userID with
  | None => 0%Z
  | Some m => Z.of_nat (size m)
  end.

(** The [rows.Next()] loop of [Init]: [fr.Insert(a, b)] per row. *)
Definition FriendRepo_load (fr : FriendRepo) (rows : list (Z * Z)) : FriendRepo :=
  foldl (λ fr ab, FriendRepo_Insert fr ab.1 ab.2) fr rows.

(** [func (cc *CommentCache) Insert(c Comment)] *)
Definition CommentCache_Insert (cc : CommentCache) (c : Comment) : CommentCache :=
  mkCommentCache (append_trim (CommentCache_Recent cc) c).

(** [func (cc *CommentCache) Get() []Comment] *)
Definition CommentCache_Get (cc : CommentCache) : list Comment := CommentCache_Recent cc.

(** [Init] once the query has answered: every scanned row is appended to
    a fresh slice, which is then reversed in place. *)
Definition CommentCache_load (rows : list Comment) : option CommentCache :=
  let recent := foldl (λ recent c, recent ++ [c]) [] rows in
  mkCommentCache <$> reverse_loop 0 recent.

(** [func (cc *EntryCache) Insert(e Entry)] *)
Definition EntryCache_Insert (cc : EntryCache) (e : Entry) : EntryCache :=
  mkEntryCache (append_trim (EntryCache_Recent cc) e).

(** [func (cc *EntryCache) Get() []Entry] *)
Definition EntryCache_Get (cc : EntryCache) : list Entry := EntryCache_Recent cc.

(** [Entry{ID: id, UserID: userID, Private: private == 1, Title: title,
    CreatedAt: createdAt}]; the other fields keep their zero values. *)
Definition EntryCache_of_row (r : EntryRow) : Entry :=
  mkEntry (row_id r) (row_userID r) (bool_decide (row_private r = 1%Z))
          (row_title r) "" (row_createdAt r) 0%Z.

(** [Init] once the query has answered. *)
Definition EntryCache_load (rows : list EntryRow) : option EntryCache :=
  let entries := foldl (λ entries r, entries ++ [EntryCache_of_row r]) [] rows in
  mkEntryCache <$> reverse_loop 0 entries.

(** [func (c *FoopprintCache) Reset()] *)
Definition FoopprintCache_Reset (c : FoopprintCache) : FoopprintCache :=
  mkFoopprintCache ∅.

(** [func (c *FoopprintCache) Invalidate(userID int)] *)
Definition FoopprintCache_Invalidate (c : FoopprintCache) (userID : Z) : FoopprintCache :=
  mkFoopprintCache (delete userID (cache c)).

(** ** The Store *)

(** The tables [GetInitialize] trims. *)
Inductive Table := relations | footprints | entries2 | comments.

(** The statements the cache layer and the reset handler send to the
    database, with their arguments. *)
Inductive StoreCall :=
| SelectUsers
| SelectProfiles
| SelectRelations
| SelectRecentComments
| SelectRecentEntries
| SelectFootprints (userID limit : Z)
| ReplaceFootprint (userID ownerID : Z) (date createdAt : Time)
| DeleteAbove (t : Table) (id : Z).

(** The database behind [db].  A query answers with the rows it returns,
    already scanned into the values the code scans them into, or fails
    ([None]: an error of [db.Query] or of [rows.Scan]).
    - [select_users]: [SELECT id, account_name, nick_name, email FROM users]
    - [select_profiles]: [SELECT * FROM profiles]
    - [select_relations]: [SELECT one, another FROM relations]
    - [select_recent_comments]: [SELECT ... FROM comments as c LEFT JOIN
      entries2 as e ... ORDER BY c.created_at DESC LIMIT 1000]
    - [select_recent_entries]: [SELECT id, user_id, private, title,
      created_at FROM entries2 ORDER BY created_at DESC LIMIT 1000]
    - [select_footprints d userID limit]: [SELECT user_id, owner_id, date,
      created_at FROM footprints WHERE user_id = ? ORDER BY created_at DESC
      LIMIT ?]
    - [replace_footprint d id visitor now now]: [replace INTO footprints
      (user_id,owner_id,date,created_at) VALUES (?,?,?,?)]
    - [delete_above d t n]: [DELETE FROM t WHERE id > n]; the handler drops
      its result, so it is total here. *)
Class Store := {
  DB : Type;
  select_users : DB → option (list User);
  select_profiles : DB → option (list Profile);
  select_relations : DB → option (list (Z * Z));
  select_recent_comments : DB → option (list Comment);
  select_recent_entries : DB → option (list EntryRow);
  select_footprints : DB → Z → Z → option (list Footprint);
  replace_footprint : DB → Z → Z → Time → Time → option DB;
  delete_above : DB → Table → Z → DB
}.

(** ** The state of the process and the monad of its operations *)

(** The outcome of running code that may [panic] or [log.Fatal]. *)
Inductive Result (A : Type) : Type :=
| Done (a : A)
| Abort.
Arguments Done {A} a.
Arguments Abort {A}.

Section Process.
Context `{Store}.

(** The package-level variables of the program, and the statements the
    database has been sent so far. *)
Record World := mkWorld {
  db : DB;
  calls : list StoreCall;
  userRepo : UserRepo;
  profileRepo : ProfileRepo;
  friendRepo : FriendRepo;
  commentCache : CommentCache;
  entryCache : EntryCache;
  footPrintCache : FoopprintCache
}.

Definition set_db (d : DB) (call : StoreCall) (w : World) : World :=
  mkWorld d (calls w ++ [call]) (userRepo w) (profileRepo w) (friendRepo w)
          (commentCache w) (entryCache w) (footPrintCache w).
Definition set_userRepo (r : UserRepo) (w : World) : World :=
  mkWorld (db w) (calls w) r (profileRepo w) (friendRepo w)
          (commentCache w) (entryCache w) (footPrintCache w).
Definition set_profileRepo (r : ProfileRepo) (w : World) : World :=
  mkWorld (db w) (calls w) (userRepo w) r (friendRepo w)
          (commentCache w) (entryCache w) (footPrintCache w).
Definition set_friendRepo (r : FriendRepo) (w : World) : World :=
  mkWorld (db w) (calls w) (userRepo w) (profileRepo w) r
          (commentCache w) (entryCache w) (footPrintCache w).
Definition set_commentCache (c : CommentCache) (w : World) : World :=
  mkWorld (db w) (calls w) (userRepo w) (profileRepo w) (friendRepo w)
          c (entryCache w) (footPrintCache w).
Definition set_entryCache (c : EntryCache) (w : World) : World :=
  mkWorld (db w) (calls w) (userRepo w) (profileRepo w) (friendRepo w)
          (commentCache w) c (footPrintCache w).
Definition set_footPrintCache (c : FoopprintCache) (w : World) : World :=
  mkWorld (db w) (calls w) (userRepo w) (profileRepo w) (friendRepo w)
          (commentCache w) (entryCache w) c.

(** The package-level variables as their declarations initialise them:
    [userRepo = UserRepo{}], [friendRepo = FriendRepo{friend: make(...)}],
    [footPrintCache = FoopprintCache{cache: make(...)}], the others zero. *)
Definition initial_world (d : DB) : World :=
  mkWorld d [] (mkUserRepo ∅ ∅ ∅) (mkProfileRepo ∅) (mkFriendRepo ∅)
          (mkCommentCache []) (mkEntryCache []) (mkFoopprintCache ∅).

Definition M (A : Type) : Type := World → Result (A * World).

#[export] Instance M_ret : MRet M := λ A a w, Done (a, w).
#[export] Instance M_bind : MBind M := λ A B f m w,
  match m w with
  | Done (a, w') => f a w'
  | Abort => Abort
  end.

Definition get : M World := λ w, Done (w, w).
Definition modify (f : World → World) : M () := λ w, Done ((), f w).
Definition panic {A} : M A := λ _, Abort.

(** [db.Query]: the statement is logged; an error ends in [checkErr],
    [panic] or [log.Fatal]. *)
Definition db_query {A} (call : StoreCall) (q : DB → option A) : M A := λ w,
  match q (db w) with
  | Some rows => Done (rows, set_db (db w) call w)
  | None => Abort
  end.

(** [db.Exec] followed by [if err != nil { panic(err) }]. *)
Definition db_exec (call : StoreCall) (e : DB → option DB) : M () := λ w,
  match e (db w) with
  | Some d => Done ((), set_db d call w)
  | None => Abort
  end.

(** [db.Exec] whose result is dropped. *)
Definition db_exec_ (call : StoreCall) (e : DB → DB) : M () := λ w,
  Done ((), set_db (e (db w)) call w).

(** *** footprints.go *)

(** [func fetchFootprint(userID, limit int) []Footprint] *)
Definition fetchFootprint (userID limit : Z) : M (list Footprint) :=
  rows ← db_query (SelectFootprints userID limit)
                  (λ d, select_footprints d userID limit);
  mret (foldl (λ footprints fp, footprints ++ [fp]) [] rows).

(** [func (c *FoopprintCache) Get(userID int) []Footprint], on the one
    instance [footPrintCache]. *)
Definition FoopprintCache_Get (userID : Z) : M (list Footprint) :=
  w ← get;
  match cache (footPrintCache w) !! userID with
  | Some fps => mret fps
  | None =>
      fps ← fetchFootprint userID 50;
      modify (λ w, set_footPrintCache
                     (mkFoopprintCache (<[userID := fps]> (cache (footPrintCache w)))) w);;
      mret fps
  end.

(** [func markFootprint(visitor, id int)]; [now] is what [time.Now()]
    returns. *)
Definition markFootprint (visitor id : Z) (now : Time) : M () :=
  if decide (visitor ≠ id) then
    db_exec (ReplaceFootprint id visitor now now)
            (λ d, replace_footprint d id visitor now now);;
    modify (λ w, set_footPrintCache
                   (FoopprintCache_Invalidate (footPrintCache w) id) w)
  else mret ().

(** *** The bulk loads *)

(** [func (r *UserRepo) Init()] *)
Definition UserRepo_Init : M () :=
  rows ← db_query SelectUsers select_users;
  modify (set_userRepo (UserRepo_load rows)).

(** [func (r *ProfileRepo) Init()] *)
Definition ProfileRepo_Init : M () :=
  rows ← db_query SelectProfiles select_profiles;
  modify (set_profileRepo (ProfileRepo_load rows)).

(** [func (fr *FriendRepo) Init()] *)
Definition FriendRepo_Init : M () :=
  modify (λ w, set_friendRepo (FriendRepo_Reset (friendRepo w)) w);;
  rows ← db_query SelectRelations select_relations;
  modify (λ w, set_friendRepo (FriendRepo_load (friendRepo w) rows) w).

(** [func (cc *CommentCache) Init()] *)
Definition CommentCache_Init : M () :=
  rows ← db_query SelectRecentComments select_recent_comments;
  match CommentCache_load rows with
  | Some cc => modify (set_commentCache cc)
  | None => panic
  end.

(** [func (cc *EntryCache) Init()] *)
Definition EntryCache_Init : M () :=
  rows ← db_query SelectRecentEntries select_recent_entries;
  match EntryCache_load rows with
  | Some cc => modify (set_entryCache cc)
  | None => panic
  end.

(** [func GetInitialize(w http.ResponseWriter, r *http.Request)] *)
Definition GetInitialize : M () :=
  db_exec_ (DeleteAbove relations 500000) (λ d, delete_above d relations 500000);;
  db_exec_ (DeleteAbove footprints 500000) (λ d, delete_above d footprints 500000);;
  db_exec_ (DeleteAbove entries2 500000) (λ d, delete_above d entries2 500000);;
  db_exec_ (DeleteAbove comments 1500000) (λ d, delete_above d comments 1500000);;
  FriendRepo_Init;;
  CommentCache_Init;;
  UserRepo_Init;;
  modify (λ w, set_footPrintCache (FoopprintCache_Reset (footPrintCache w)) w);;
  EntryCache_Init;;
  ProfileRepo_Init.

(** The bulk loads of [func main()], between the setup of the router and
    the first [http.ListenAndServe]. *)
Definition main_init : M () :=
  FriendRepo_Init;;
  CommentCache_Init;;
  UserRepo_Init;;
  EntryCache_Init;;
  ProfileRepo_Init.
End Process.

Section Calls.
Context `{Store}.

(** The call [userRepo.Get(userID)] of [getUser] and [getCurrentUser]. *)
Definition getUser (userID : Z) : M (option User) :=
  w ← get; mret (UserRepo_Get (userRepo w) userID).

(** The call [userRepo.GetByAccount(name)] of [getUserFromAccount] and
    [isFriendAccount]. *)
Definition getUserFromAccount (name : string) : M (option User) :=
  w ← get; mret (UserRepo_GetByAccount (userRepo w) name).

(** The call [userRepo.GetByMail(email)] of [authenticate]. *)
Definition getUserFromMail (email : string) : M (option User) :=
  w ← get; mret (UserRepo_GetByMail (userRepo w) email).

(** The call [footPrintCache.Invalidate(userID)]. *)
Definition invalidate (userID : Z) : M () :=
  modify (λ w, set_footPrintCache
                 (FoopprintCache_Invalidate (footPrintCache w) userID) w).
End Calls.

(** ** Notions the properties are stated with *)

Section SliceNotions.
Context {A : Type}.
Implicit Types s t : list A.

(** The state of the loop when its counter is [i]: the first [i] and the
    last [i] elements of [s] have changed places, mirrored; the middle is
    as it was. *)
Definition partially_reversed (i : nat) s t : Prop :=
  length t = length s ∧
  ∀ j, j < length s →
    t !! j = if decide (j < i ∨ length s - i ≤ j)
             then s !! (length s - 1 - j) else s !! j.
End SliceNotions.

(** The adjacency relation is symmetric. *)
Definition symmetric (fr : FriendRepo) : Prop :=
  ∀ x y, FriendRepo_IsFriend fr x y = FriendRepo_IsFriend fr y x.

(** The rows with a given id, address, handle, in the order of the table. *)
Definition rows_with_id (id : Z) (rows : list User) : list User :=
  filter (λ u, User_ID u = id) rows.
Definition rows_with_mail (email : string) (rows : list User) : list User :=
  filter (λ u, User_Email u = email) rows.
Definition rows_with_account (account : string) (rows : list User) : list User :=
  filter (λ u, User_AccountName u = account) rows.

(** The operations on the footprint cache that request handlers run. *)
Inductive CacheOp :=
| OpGet (userID : Z)
| OpInvalidate (userID : Z)
| OpMark (visitor id : Z) (now : Time).

(** The operations that invalidate the entry of [k]. *)
Definition invalidates (k : Z) (op : CacheOp) : Prop :=
  match op with
  | OpGet _ => False
  | OpInvalidate userID => userID = k
  | OpMark visitor id _ => visitor ≠ id ∧ id = k
  end.

Section ProcessNotions.
Context `{Store}.

(** One operation, and a sequence of them in order. *)
Definition run_op (op : CacheOp) : M () :=
  match op with
  | OpGet userID => FoopprintCache_Get userID;; mret ()
  | OpInvalidate userID => invalidate userID
  | OpMark visitor id now => markFootprint visitor id now
  end.

Fixpoint run_ops (ops : list CacheOp) : M () :=
  match ops with
  | [] => mret ()
  | op :: ops => run_op op;; run_ops ops
  end.

(** The database after the four [DELETE]s of [GetInitialize]. *)
Definition trimmed (d : DB) : DB :=
  delete_above
    (delete_above
       (delete_above (delete_above d relations 500000) footprints 500000)
       entries2 500000)
    comments 1500000.

(** The mirrors, the graph and the windows of [w] hold the given rows. *)
Definition loaded (w : World)
    (relation_rows : list (Z * Z)) (comment_rows : list Comment)
    (user_rows : list User) (entry_rows : list EntryRow)
    (profile_rows : list Profile) : Prop :=
  (∀ a b, a ≠ b →
     FriendRepo_IsFriend (friendRepo w) a b = true
     ↔ (a, b) ∈ relation_rows ∨ (b, a) ∈ relation_rows) ∧
  CommentCache_Get (commentCache w) = rev comment_rows ∧
  (∀ id, UserRepo_Get (userRepo w) id = last (rows_with_id id user_rows)) ∧
  (∀ e, byMail (userRepo w) !! e
        = User_ID <$> last (rows_with_mail e user_rows)) ∧
  (∀ a, byAccount (userRepo w) !! a
        = User_ID <$> last (rows_with_account a user_rows)) ∧
  EntryCache_Get (entryCache w) = rev (EntryCache_of_row <$> entry_rows) ∧
  (∀ id, ProfileRepo_Get (profileRepo w) id
         = last (filter (λ p, Profile_UserID p = id) profile_rows)).
End ProcessNotions.

(** ** An in-memory database

    A small database to run the operations on concrete inputs: every table
    is the list of its rows, the time-ordered ones newest first. *)

Record MemDB := mkMemDB {
  mem_users : list User;
  mem_profiles : list Profile;
  mem_relations : list (Z * Z);
  mem_comments : list Comment;
  mem_entries : list EntryRow;
  mem_footprints : list Footprint
}.

Definition mem_replace_footprint (d : MemDB) (id visitor : Z) (date now : Time)
  : MemDB :=
  mkMemDB (mem_users d) (mem_profiles d) (mem_relations d) (mem_comments d)
          (mem_entries d)
          (mkFootprint id visitor date now :: mem_footprints d).

Definition mem_delete_above (d : MemDB) (t : Table) (n : Z) : MemDB :=
  match t with
  | comments =>
      mkMemDB (mem_users d) (mem_profiles d) (mem_relations d)
              (filter (λ c, (Comment_ID c ≤ n)%Z) (mem_comments d))
              (mem_entries d) (mem_footprints d)
  | entries2 =>
      mkMemDB (mem_users d) (mem_profiles d) (mem_relations d) (mem_comments d)
              (filter (λ e, (row_id e ≤ n)%Z) (mem_entries d))
              (mem_footprints d)
  | relations | footprints => d
  end.

Definition MemStore : Store := {|
  DB := MemDB;
  select_users d := Some (mem_users d);
  select_profiles d := Some (mem_profiles d);
  select_relations d := Some (mem_relations d);
  select_recent_comments d := Some (take 1000 (mem_comments d));
  select_recent_entries d := Some (take 1000 (mem_entries d));
  select_footprints d userID limit :=
    Some (take (Z.to_nat limit)
               (filter (λ fp, Footprint_UserID fp = userID) (mem_footprints d)));
  replace_footprint d id visitor date now :=
    Some (mem_replace_footprint d id visitor date now);
  delete_above := mem_delete_above
|}.

(** A database that refuses every write. *)
Definition ReadOnlyStore : Store := {|
  DB := MemDB;
  select_users d := Some (mem_users d);
  select_profiles d := Some (mem_profiles d);
  select_relations d := Some (mem_relations d);
  select_recent_comments d := Some (take 1000 (mem_comments d));
  select_recent_entries d := Some (take 1000 (mem_entries d));
  select_footprints d userID limit :=
    Some (take (Z.to_nat limit)
               (filter (λ fp, Footprint_UserID fp = userID) (mem_footprints d)));
  replace_footprint d id visitor date now := None;
  delete_above d t n := d
|}.

(** Sample rows. *)
Definition alice : User := mkUser 1 "alice" "Alice" "alice@x".
Definition bob : User := mkUser 2 "bob" "Bob" "bob@x".
Definition root : User := mkUser 0 "root" "Root" "root@x".
Definition visit_3_by_7 : Footprint := mkFootprint 3 7 100 100.
Definition entry_row (n : nat) : EntryRow :=
  mkEntryRow (Z.of_nat n) 1 0 "title" (Z.of_nat n).
Definition comment_no (n : nat) : Comment :=
  mkComment (Z.of_nat n) 1 2 "hello" (Z.of_nat n) 1 false.

Definition sample_db : MemDB :=
  mkMemDB [alice; bob] [] [(1, 2); (2, 1)]%Z
          [comment_no 2; comment_no 1] [entry_row 2; entry_row 1]
          [visit_3_by_7].

(** A user table whose first row has id 0. *)
Definition root_db : MemDB := mkMemDB [root; alice] [] [] [] [] [].

(** The process right after its start, over the sample database. *)
Definition sample_world : @World MemStore := @initial_world MemStore sample_db.

(** The same process once the footprints of users 3 and 7 are cached. *)
Definition warm_world : @World MemStore :=
  @set_footPrintCache MemStore
    (mkFoopprintCache (<[3%Z := [visit_3_by_7]]> (<[7%Z := []]> ∅)))
    sample_world.

(** Case analysis on the membership of a row in an explicit table. *)
Ltac table_rows Hv :=
  repeat (apply elem_of_cons in Hv as [->|Hv]; [try done|]);
  try (by apply elem_of_nil in Hv).

(** ** The callers of the caches in [GetIndex], and slices with capacity *)

(** [func permitted2(myID, anotherID int) bool] *)
Definition permitted2 (fr : FriendRepo) (myID anotherID : Z) : bool :=
  if decide (myID = anotherID) then true
  else FriendRepo_IsFriend fr myID anotherID.

(** The loop of [GetIndex] over [recentEntries := entryCache.Get()],
    [for i := len(recentEntries) - 1; i >= 0; i--], when [i + 1] is [n]
    and [entriesOfFriends] is what has been collected. *)
Fixpoint entriesOfFriends_loop (fr : FriendRepo) (userID : Z)
    (recentEntries : list Entry) (n : nat) (entriesOfFriends : list Entry)
  : option (list Entry) :=
  match n with
  | 0 => Some entriesOfFriends
  | S i =>
      e ← recentEntries !! i;
      if negb (FriendRepo_IsFriend fr userID (Entry_UserID e))
      then entriesOfFriends_loop fr userID recentEntries i entriesOfFriends
      else
        let entriesOfFriends := entriesOfFriends ++ [e] in
        if decide (10 ≤ length entriesOfFriends) then Some entriesOfFriends
        else entriesOfFriends_loop fr userID recentEntries i entriesOfFriends
  end.

(** [entriesOfFriends := make([]Entry, 0, 10)] and the loop. *)
Definition entriesOfFriends (fr : FriendRepo) (userID : Z)
    (recentEntries : list Entry) : option (list Entry) :=
  entriesOfFriends_loop fr userID recentEntries (length recentEntries) [].

(** The loop of [GetIndex] over [cc := commentCache.Get()]. *)
Fixpoint commentsOfFriends_loop (fr : FriendRepo) (userID : Z)
    (cc : list Comment) (n : nat) (commentsOfFriends : list Comment)
  : option (list Comment) :=
  match n with
  | 0 => Some commentsOfFriends
  | S i =>
      c ← cc !! i;
      if negb (FriendRepo_IsFriend fr userID (Comment_UserID c))
      then commentsOfFriends_loop fr userID cc i commentsOfFriends
      else if Comment_private c
              && negb (permitted2 fr userID (Comment_EntryOwnerID c))
      then commentsOfFriends_loop fr userID cc i commentsOfFriends
      else
        let commentsOfFriends := commentsOfFriends ++ [c] in
        if decide (10 ≤ length commentsOfFriends) then Some commentsOfFriends
        else commentsOfFriends_loop fr userID cc i commentsOfFriends
  end.

Definition commentsOfFriends (fr : FriendRepo) (userID : Z)
    (cc : list Comment) : option (list Comment) :=
  commentsOfFriends_loop fr userID cc (length cc) [].

(** A Go slice with its backing array: the array from the first element
    of the slice on (its length is the capacity), and the length of the
    slice. *)
Record Slice (A : Type) := mkSlice {
  slice_array : list A;
  slice_len : nat
}.
Arguments mkSlice {A} _ _.
Arguments slice_array {A} _.
Arguments slice_len {A} _.

Section SlicesWithCapacity.
Context {A : Type}.

(** The zero value of the element type, and the capacity [append] gives
    the array it allocates, from the old capacity and the length it needs;
    the run time picks it. *)
Variable zero : A.
Variable grow : nat → nat → nat.

(** The elements of the slice. *)
Definition slice_elems (s : Slice A) : list A :=
  take (slice_len s) (slice_array s).

(** [cap(s)] *)
Definition slice_cap (s : Slice A) : nat := length (slice_array s).

(** [make([]T, 0, c)] *)
Definition slice_make (c : nat) : Slice A := mkSlice (replicate c zero) 0.

(** [append(s, x)]: within the capacity the element is written into the
    array; beyond it the elements are copied into a new, zeroed array. *)
Definition slice_append (s : Slice A) (x : A) : Slice A :=
  if decide (slice_len s < slice_cap s)
  then mkSlice (<[slice_len s := x]> (slice_array s)) (S (slice_len s))
  else
    let c := grow (slice_cap s) (S (slice_len s)) in
    mkSlice (slice_elems s ++ [x] ++ replicate (c - S (slice_len s)) zero)
            (S (slice_len s)).

(** [s[:n]]: [n] beyond the capacity panics. *)
Definition slice_upto (s : Slice A) (n : nat) : option (Slice A) :=
  if decide (n ≤ slice_cap s) then Some (mkSlice (slice_array s) n) else None.
End SlicesWithCapacity.

(** The slice [fetchFootprint] builds from the rows of its query:
    [footprints := make([]Footprint, 0, 10)], then an [append] per row. *)
Definition fetchFootprint_slice (zero : Footprint) (grow : nat → nat → nat)
    (rows : list Footprint) : Slice Footprint :=
  foldl (slice_append zero grow) (slice_make zero 10) rows.

(** The users that share a row of [relations] with [a], [a] apart. *)
Definition neighbours (a : Z) (rows : list (Z * Z)) : gset Z :=
  list_to_set
    (rows ≫= λ ab,
       if decide (ab.1 = ab.2) then []
       else if decide (ab.1 = a) then [ab.2]
       else if decide (ab.2 = a) then [ab.1]
       else []).

(** The caches of a state. *)
Definition caches `{Store} (w : World) :=
  (userRepo w, profileRepo w, friendRepo w,
   commentCache w, entryCache w, footPrintCache w).

(** ** The handlers that write to a cache

    Of a request the handlers below see the [user_id] of its session, if
    any, the variables of its route and the values of its form; of the
    response, what is sent is recorded: redirects and rendered pages.  The
    log [calls] holds the statements of the cache layer; the statements of
    the handlers show in the database they leave. *)

(** The targets of the redirects: ["/login"], ["/friends"] and
    ["/diary/entry/"+strconv.Itoa(entry.ID)]. *)
Inductive Location :=
| LoginPage
| FriendsPage
| EntryPage (id : Z).

(** [http.Redirect(w, r, location, status)] and
    [render(w, r, status, file, data)]. *)
Inductive Response :=
| RedirectTo (location : Location) (status : Z)
| RenderPage (status : Z) (file : string).

(** The statements of the handlers.
    - [select_entry d entryID]: [SELECT id, user_id, private FROM entries2
      WHERE id = ?] and [row.Scan]: [None] is an error, [Some None] is
      [sql.ErrNoRows].
    - [insert_comment d entryID userID comment entryUserID]: [INSERT INTO
      comments (entry_id, user_id, comment, entry_user_id) VALUES
      (?,?,?,?)], with [result.LastInsertId()].
    - [insert_relations d a b c e]: [INSERT INTO relations (one, another)
      VALUES (?,?), (?,?)]. *)
Class HandlerStore (S : Store) := {
  select_entry : DB → string → option (option (Z * Z * Z));
  insert_comment : DB → Z → Z → string → Z → option (DB * Z);
  insert_relations : DB → Z → Z → Z → Z → option DB
}.

Section Handlers.
Context `{HandlerStore}.

Definition put_db (d : DB) (w : World) : World :=
  mkWorld d (calls w) (userRepo w) (profileRepo w) (friendRepo w)
          (commentCache w) (entryCache w) (footPrintCache w).

(** [func getCurrentUser(w, r) *User]: without a [user_id] in the session
    [nil], else [userRepo.Get] of it. *)
Definition getCurrentUser (session_user_id : option Z) : M (option User) :=
  match session_user_id with
  | None => mret None
  | Some userID => getUser userID
  end.

(** [func isFriend(w, r, anotherID int) bool]: the type assertion
    [session.Values["user_id"].(int)] panics without a [user_id]. *)
Definition isFriend (session_user_id : option Z) (anotherID : Z) : M bool :=
  match session_user_id with
  | None => panic
  | Some id => w ← get; mret (FriendRepo_IsFriend (friendRepo w) id anotherID)
  end.

(** [func isFriendAccount(w, r, name string) bool] *)
Definition isFriendAccount (session_user_id : option Z) (name : string)
  : M bool :=
  user ← getUserFromAccount name;
  match user with
  | None => mret false
  | Some user => isFriend session_user_id (User_ID user)
  end.

(** [func permitted(w, r, anotherID int) bool]: [user.ID] of a [nil] user
    panics. *)
Definition permitted (session_user_id : option Z) (anotherID : Z) : M bool :=
  user ← getCurrentUser session_user_id;
  match user with
  | None => panic
  | Some user =>
      if decide (anotherID = User_ID user) then mret true
      else isFriend session_user_id anotherID
  end.

(** [func PostFriends(w, r)], with [mux.Vars(r)["account_name"]]. *)
Definition PostFriends (session_user_id : option Z) (anotherAccount : string)
  : M (list Response) :=
  current ← getCurrentUser session_user_id;
  match current with
  | None => mret [RedirectTo LoginPage 302]
  | Some _ =>
      user ← getCurrentUser session_user_id;
      known ← isFriendAccount session_user_id anotherAccount;
      if negb known then
        another ← getUserFromAccount anotherAccount;
        match user, another with
        | Some user, Some another =>
            w ← get;
            match insert_relations (db w) (User_ID user) (User_ID another)
                                   (User_ID another) (User_ID user) with
            | None => panic
            | Some d =>
                modify (put_db d);;
                modify (λ w, set_friendRepo
                               (FriendRepo_Insert (friendRepo w) (User_ID user)
                                                  (User_ID another)) w);;
                mret [RedirectTo FriendsPage 303]
            end
        | _, _ => panic
        end
      else mret []
  end.

(** [func PostComment(w, r)], with [mux.Vars(r)["entry_id"]],
    [r.FormValue("comment")] and what [time.Now()] returns. *)
Definition PostComment (session_user_id : option Z) (entryID : string)
    (comment : string) (now : Time) : M (list Response) :=
  current ← getCurrentUser session_user_id;
  match current with
  | None => mret [RedirectTo LoginPage 302]
  | Some _ =>
      w ← get;
      match select_entry (db w) entryID with
      | None => panic
      | Some None => mret [RenderPage 404 "error.html"]
      | Some (Some (id, userID, private)) =>
          let entry_Private := bool_decide (private = 1%Z) in
          owner ← getUser userID;
          denied ←
            ((if entry_Private then
               match owner with
               | None => panic
               | Some owner =>
                   ok ← permitted session_user_id (User_ID owner);
                   mret (if ok : bool then [] else [RenderPage 403 "error.html"])
               end
             else mret []) : M (list Response));
          user ← getCurrentUser session_user_id;
          match user with
          | None => panic
          | Some user =>
              match insert_comment (db w) id (User_ID user) comment userID with
              | None => panic
              | Some (d, lastId) =>
                  modify (put_db d);;
                  let c := mkComment lastId id (User_ID user) comment now
                                     userID entry_Private in
                  modify (λ w, set_commentCache
                                 (CommentCache_Insert (commentCache w) c) w);;
                  mret (denied ++ [RedirectTo (EntryPage id) 303])
              end
          end
      end
  end.
End Handlers.

(** The handler statements on the in-memory database: entries are found
    by the decimal string of their id among ["1"] and ["2"]; a comment gets
    the id that follows the number of comments. *)
Definition mem_select_entry (d : MemDB) (entryID : string)
  : option (option (Z * Z * Z)) :=
  Some ((λ e, (row_id e, row_userID e, row_private e))
          <$> head (filter (λ e, (row_id e = 1%Z ∧ entryID = "1")
                                 ∨ (row_id e = 2%Z ∧ entryID = "2"))
                           (mem_entries d))).

Definition mem_insert_comment (d : MemDB) (entryID userID : Z)
    (comment : string) (entryUserID : Z) : option (MemDB * Z) :=
  let id := Z.of_nat (S (length (mem_comments d))) in
  Some (mkMemDB (mem_users d) (mem_profiles d) (mem_relations d)
                (mkComment id entryID userID comment 0 entryUserID false
                 :: mem_comments d)
                (mem_entries d) (mem_footprints d), id).

Definition mem_insert_relations (d : MemDB) (a b c e : Z) : option MemDB :=
  Some (mkMemDB (mem_users d) (mem_profiles d)
                (mem_relations d ++ [(a, b); (c, e)])
                (mem_comments d) (mem_entries d) (mem_footprints d)).

Definition MemHandlerStore : HandlerStore MemStore :=
  @Build_HandlerStore MemStore
    mem_select_entry mem_insert_comment mem_insert_relations.

Section CollectNotion.
Context {A : Type} (P : A → bool).

(** Both loops of [GetIndex], over any items and any test. *)
Fixpoint collect_loop (window : list A) (n : nat) (acc : list A)
  : option (list A) :=
  match n with
  | 0 => Some acc
  | S i =>
      x ← window !! i;
      if negb (P x) then collect_loop window i acc
      else
        let acc := acc ++ [x] in
        if decide (10 ≤ length acc) then Some acc
        else collect_loop window i acc
  end.
End CollectNotion.

(** A window that is full: 1000 entries, numbered 1 to 1000. *)
Definition full_entries : EntryCache :=
  mkEntryCache (EntryCache_of_row <$> (entry_row <$> seq 1 1000)).

(** A process whose graph holds an edge that the table does not have. *)
Definition stale_world : @World MemStore :=
  @set_friendRepo MemStore (FriendRepo_Insert (mkFriendRepo ∅) 8 9) sample_world.

(** Two rows of [profiles] for user 1 and none for user 2. *)
Definition profile_old : Profile := mkProfile 1 "A" "Old" "f" None "Tokyo" 10.
Definition profile_new : Profile := mkProfile 1 "A" "New" "f" (Some 5%Z) "Osaka" 20.
Definition profile_db : MemDB :=
  mkMemDB [alice; bob] [profile_old; profile_new] [] [] [] [].

(** A database with a private entry of alice, and a process whose user
    mirror is loaded; bob is no friend of alice. *)
Definition private_db : MemDB :=
  mkMemDB [alice; bob] [] [] [] [mkEntryRow 1 1 1 "secret" 5] [].
Definition private_world : @World MemStore :=
  @set_userRepo MemStore (UserRepo_load [alice; bob])
                (@initial_world MemStore private_db).

Ltac adjacency_cases :=
  repeat case_decide; subst; simpl; try done; try congruence;
  f_equal; apply map_eq; intros ?; rewrite !lookup_insert;
  repeat case_decide; subst; try done; congruence.

Ltac run_handler :=
  unfold PostComment, PostFriends, permitted, isFriendAccount, isFriend,
    getCurrentUser, getUserFromAccount, getUser, mbind, M_bind, get, modify,
    mret, M_ret, panic.

(** A row of [SELECT * FROM relations], as [GetFriends] scans it. *)
Record RelationRow := mkRelationRow {
  rel_id : Z;
  rel_one : Z;
  rel_another : Z;
  rel_createdAt : Time
}.

(** [friendID] of a row in [GetFriends]: [another] if [one == user.ID],
    else [one]. *)
Definition friendID (userID : Z) (r : RelationRow) : Z :=
  if decide (rel_one r = userID) then rel_another r else rel_one r.

(** The [rows.Next()] loop of [GetFriends] that fills [friendsMap]. *)
Definition friendsMap (userID : Z) (rows : list RelationRow) : gmap Z Time :=
  foldl (λ friendsMap r,
           match friendsMap !! friendID userID r with
           | Some _ => friendsMap
           | None => <[friendID userID r := rel_createdAt r]> friendsMap
           end)
        ∅ rows.

Section SliceTests.
Example swap_ex : swap 0 2 [1; 2; 3] = Some [3; 2; 1].
Proof. reflexivity. Qed.
Example swap_oob : swap 0 3 [1; 2; 3] = None.
Proof. reflexivity. Qed.
Example reverse_loop_ex : reverse_loop 0 [1; 2; 3; 4; 5] = Some [5; 4; 3; 2; 1].
Proof. reflexivity. Qed.
Example reverse_loop_ex0 : reverse_loop 0 ([] : list nat) = Some [].
Proof. reflexivity. Qed.
End SliceTests.

Section SliceFacts.
Context {A : Type}.
Implicit Types s t : list A.

Lemma swap_length i j s s' : swap i j s = Some s' → length s' = length s.
Proof.
  unfold swap. intros H.
  destruct (s !! j) as [x|]; simpl in H; [|discriminate].
  destruct (s !! i) as [y|]; simpl in H; [|discriminate].
  injection H as <-. by rewrite !length_insert.
Qed.

Lemma rev_lookup s j :
  j < length s → rev s !! j = s !! (length s - 1 - j).
Proof.
  intros Hj. rewrite rev_alt. fold (reverse s).
  rewrite reverse_lookup by done. f_equal. lia.
Qed.

Lemma half_bounds (n : nat) : 2 * (n / 2) ≤ n < 2 * (n / 2) + 2.
Proof.
  pose proof (Nat.div_mod_eq n 2). pose proof (Nat.mod_upper_bound n 2). lia.
Qed.

Lemma swap_lookup i j s s' k :
  swap i j s = Some s' →
  s' !! k = if decide (k = j) then s !! i
            else if decide (k = i) then s !! j else s !! k.
Proof.
  unfold swap. intros H.
  destruct (s !! j) as [x|] eqn:Hj; simpl in H; [|discriminate].
  destruct (s !! i) as [y|] eqn:Hi; simpl in H; [|discriminate].
  injection H as <-.
  apply lookup_lt_Some in Hj as Hj'. apply lookup_lt_Some in Hi as Hi'.
  destruct (decide (k = j)) as [->|Hkj].
  - rewrite list_lookup_insert_eq by (by rewrite length_insert). done.
  - rewrite list_lookup_insert_ne by done.
    destruct (decide (k = i)) as [->|Hki].
    + by rewrite list_lookup_insert_eq.
    + by rewrite list_lookup_insert_ne.
Qed.

Lemma reverse_loop_spec s i t :
  partially_reversed i s t → i ≤ length s / 2 →
  reverse_loop i t = Some (rev s).
Proof.
  revert s. funelim (reverse_loop i t); intros s0 [Hlen Hpr] Hi.
  - (* the loop is over: i = len/2 *)
    clear Heq Heqcall. rewrite Hlen in n.
    f_equal. apply list_eq. intros j.
    pose proof (half_bounds (length s0)) as Hh.
    destruct (decide (j < length s0)) as [Hj|Hj].
    + rewrite Hpr, rev_lookup by done.
      case_decide as Hc; [done|]. f_equal. lia.
    + rewrite !lookup_ge_None_2; [done | rewrite length_rev; lia | lia].
  - (* one more iteration *)
    clear Heq Heqcall. rename e into Hsw. rewrite Hlen in l.
    apply H; [|lia]. split.
    + apply swap_length in Hsw as Hl. congruence.
    + intros j Hj. rewrite (swap_lookup _ _ _ _ j Hsw). rewrite Hlen.
      pose proof (half_bounds (length s0)) as Hh.
      repeat case_decide; subst; rewrite ?Hpr by lia;
        repeat case_decide; try lia; try done; f_equal; lia.
  - (* the indices of the swap are in range *)
    exfalso. clear Heq Heqcall. rewrite Hlen in l.
    pose proof (half_bounds (length s0)) as Hh.
    destruct (lookup_lt_is_Some_2 s (length s - 1 - i)) as [x Hx]; [lia|].
    destruct (lookup_lt_is_Some_2 s i) as [y Hy]; [lia|].
    pose proof e as Hsw. unfold swap in Hsw.
    rewrite Hx in Hsw. simpl in Hsw. rewrite Hy in Hsw. discriminate.
Qed.

Lemma partially_reversed_0 s : partially_reversed 0 s s.
Proof.
  split; [done|]. intros j Hj. case_decide; [lia | done].
Qed.

(** The loop, run from its start, reverses the slice and never indexes
    out of range. *)
Lemma reverse_loop_rev s : reverse_loop 0 s = Some (rev s).
Proof. apply reverse_loop_spec; [apply partially_reversed_0 | lia]. Qed.
End SliceFacts.

(** ** The recency windows *)

Section WindowFacts.
Context {A : Type}.
Implicit Types s l : list A.

Lemma append_trim_drop s x :
  append_trim s x = drop (length s + 1 - 1000) (s ++ [x]).
Proof.
  unfold append_trim. rewrite length_app. simpl.
  case_decide as Hlen; [done|].
  replace (length s + 1 - 1000) with 0 by lia. done.
Qed.

Lemma append_trim_length s x : length (append_trim s x) ≤ 1000.
Proof.
  rewrite append_trim_drop, length_drop, length_app. simpl. lia.
Qed.

(** A run of inserts keeps the last 1000 of everything seen. *)
Lemma foldl_append_trim l s :
  length s ≤ 1000 →
  foldl append_trim s l = drop (length s + length l - 1000) (s ++ l).
Proof.
  revert s. induction l as [|x l IH]; intros s Hs; simpl.
  - rewrite app_nil_r, Nat.add_0_r.
    replace (length s - 1000) with 0 by lia. done.
  - rewrite IH by apply append_trim_length.
    rewrite append_trim_drop, length_drop, length_app. simpl.
    replace (s ++ x :: l) with ((s ++ [x]) ++ l) by (by rewrite <- app_assoc).
    rewrite <- (drop_app_le (s ++ [x]) l (length s + 1 - 1000))
      by (rewrite length_app; simpl; lia).
    rewrite drop_drop. f_equal. lia.
Qed.

Lemma foldl_append_trim_length l s :
  length s ≤ 1000 → length (foldl append_trim s l) ≤ 1000.
Proof.
  intros Hs. rewrite foldl_append_trim by done.
  rewrite length_drop, length_app. lia.
Qed.

(** The [append] loop of the bulk loads collects the rows in order. *)
Lemma foldl_snoc_fmap {B} (f : B → A) (rows : list B) s :
  foldl (λ acc r, acc ++ [f r]) s rows = s ++ (f <$> rows).
Proof.
  revert s. induction rows as [|r rows IH]; intros s; simpl.
  - by rewrite app_nil_r.
  - rewrite IH. by rewrite <- app_assoc.
Qed.

Lemma last_rev l : last (rev l) = head l.
Proof. destruct l as [|x l]; [done|]. simpl. by rewrite last_snoc. Qed.

Lemma head_rev l : head (rev l) = last l.
Proof. rewrite <- (rev_involutive l) at 2. by rewrite last_rev. Qed.
End WindowFacts.

Lemma EntryCache_Insert_run (cc : EntryCache) (es : list Entry) :
  length (EntryCache_Recent cc) ≤ 1000 →
  EntryCache_Get (foldl EntryCache_Insert cc es) =
  drop (length (EntryCache_Recent cc) + length es - 1000)
       (EntryCache_Recent cc ++ es).
Proof.
  intros Hcc. rewrite <- foldl_append_trim by done.
  revert cc Hcc. induction es as [|e es IH]; intros cc Hcc; [done|].
  simpl. rewrite IH; [done|]. apply append_trim_length.
Qed.

Lemma CommentCache_Insert_run (cc : CommentCache) (cs : list Comment) :
  length (CommentCache_Recent cc) ≤ 1000 →
  CommentCache_Get (foldl CommentCache_Insert cc cs) =
  drop (length (CommentCache_Recent cc) + length cs - 1000)
       (CommentCache_Recent cc ++ cs).
Proof.
  intros Hcc. rewrite <- foldl_append_trim by done.
  revert cc Hcc. induction cs as [|c cs IH]; intros cc Hcc; [done|].
  simpl. rewrite IH; [done|]. apply append_trim_length.
Qed.

Lemma EntryCache_load_rev (rows : list EntryRow) :
  EntryCache_load rows = Some (mkEntryCache (rev (EntryCache_of_row <$> rows))).
Proof.
  unfold EntryCache_load. rewrite foldl_snoc_fmap. simpl.
  by rewrite reverse_loop_rev.
Qed.

Lemma CommentCache_load_rev (rows : list Comment) :
  CommentCache_load rows = Some (mkCommentCache (rev rows)).
Proof.
  unfold CommentCache_load.
  rewrite (foldl_snoc_fmap id). simpl.
  rewrite list_fmap_id. by rewrite reverse_loop_rev.
Qed.

(** C1.  Capacity of the recency windows: from a window of at most 1000
    items, the window holds at most 1000 items after each insert of any
    sequence of inserts, for the entries and for the comments.  The state
    after the first [n] inserts of the sequence is the run over
    [take n]. *)
Theorem window_capacity (ec : EntryCache) (cc : CommentCache)
    (es : list Entry) (cs : list Comment) (n : nat) :
  length (EntryCache_Get ec) ≤ 1000 →
  length (CommentCache_Get cc) ≤ 1000 →
  length (EntryCache_Get (foldl EntryCache_Insert ec (take n es))) ≤ 1000 ∧
  length (CommentCache_Get (foldl CommentCache_Insert cc (take n cs))) ≤ 1000.
Proof.
  intros Hec Hcc. unfold EntryCache_Get, CommentCache_Get in *. split.
  - rewrite EntryCache_Insert_run by done.
    rewrite length_drop, length_app. lia.
  - rewrite CommentCache_Insert_run by done.
    rewrite length_drop, length_app. lia.
Qed.

Lemma window_capacity_witness :
  length (EntryCache_Get
            (foldl EntryCache_Insert (mkEntryCache [])
                   (take 1 [EntryCache_of_row (entry_row 1);
                            EntryCache_of_row (entry_row 2)]))) ≤ 1000 ∧
  length (CommentCache_Get
            (foldl CommentCache_Insert (mkCommentCache [comment_no 1])
                   (take 1 [comment_no 2; comment_no 3]))) ≤ 1000.
Proof.
  apply (window_capacity (mkEntryCache []) (mkCommentCache [comment_no 1])
                         _ _ 1); simpl; lia.
Defined.

(** C3.  Eviction: items 1..1001, inserted in this order into an empty
    window, leave exactly items 2..1001 in insertion order; [Get] returns
    1000 items, the first is item 2 and the last item 1001.  This holds for
    any numbering [entry], [comment] of items. *)
Theorem window_eviction (entry : nat → Entry) (comment : nat → Comment) :
  let ec := foldl EntryCache_Insert (mkEntryCache []) (entry <$> seq 1 1001) in
  let cc := foldl CommentCache_Insert (mkCommentCache []) (comment <$> seq 1 1001) in
  (EntryCache_Get ec = entry <$> seq 2 1000 ∧
   length (EntryCache_Get ec) = 1000 ∧
   head (EntryCache_Get ec) = Some (entry 2) ∧
   last (EntryCache_Get ec) = Some (entry 1001)) ∧
  (CommentCache_Get cc = comment <$> seq 2 1000 ∧
   length (CommentCache_Get cc) = 1000 ∧
   head (CommentCache_Get cc) = Some (comment 2) ∧
   last (CommentCache_Get cc) = Some (comment 1001)).
Proof.
  assert (Hwin : ∀ {B} (f : nat → B),
             drop (0 + length (f <$> seq 1 1001) - 1000) ([] ++ (f <$> seq 1 1001))
             = f <$> seq 2 1000).
  { intros B f. rewrite length_fmap, length_seq.
    replace (0 + 1001 - 1000) with 1 by lia. reflexivity. }
  assert (Hshape : ∀ {B} (f : nat → B),
             length (f <$> seq 2 1000) = 1000 ∧
             head (f <$> seq 2 1000) = Some (f 2) ∧
             last (f <$> seq 2 1000) = Some (f 1001)).
  { intros B f. split; [by rewrite length_fmap, length_seq|]. split; [done|].
    assert (Hs : seq 2 1000 = seq 2 999 ++ [1001]) by exact (seq_app 999 1 2).
    rewrite Hs, fmap_app. apply last_snoc. }
  intros ec cc. split.
  - assert (Hec : EntryCache_Get ec = entry <$> seq 2 1000).
    { unfold ec. rewrite EntryCache_Insert_run by (simpl; lia). apply Hwin. }
    rewrite Hec. split; [done | apply Hshape].
  - assert (Hcc : CommentCache_Get cc = comment <$> seq 2 1000).
    { unfold cc. rewrite CommentCache_Insert_run by (simpl; lia). apply Hwin. }
    rewrite Hcc. split; [done | apply Hshape].
Qed.

Section WindowInit.
Context `{Store}.

(** C4.  Bulk load of the recency windows: whatever sequence the Store
    returns newest-first, [Init] ends with the window equal to the
    reversal of that sequence (for the entries, of the entries made from
    the rows), so the newest item, the head of the result, is at the
    tail.  The loads index their slice in range and do not panic. *)
Theorem window_init_reverses (w : World)
    (erows : list EntryRow) (crows : list Comment) :
  select_recent_entries (db w) = Some erows →
  select_recent_comments (db w) = Some crows →
  (∃ w', EntryCache_Init w = Done ((), w') ∧
         EntryCache_Get (entryCache w') = rev (EntryCache_of_row <$> erows) ∧
         last (EntryCache_Get (entryCache w')) = EntryCache_of_row <$> head erows) ∧
  (∃ w', CommentCache_Init w = Done ((), w') ∧
         CommentCache_Get (commentCache w') = rev crows ∧
         last (CommentCache_Get (commentCache w')) = head crows).
Proof.
  intros He Hc. split.
  - unfold EntryCache_Init, mbind, M_bind, db_query. rewrite He.
    rewrite EntryCache_load_rev. eexists. split; [reflexivity|].
    simpl. split; [done|]. rewrite last_rev. by destruct erows.
  - unfold CommentCache_Init, mbind, M_bind, db_query. rewrite Hc.
    rewrite CommentCache_load_rev. eexists. split; [reflexivity|].
    simpl. split; [done|]. by rewrite last_rev.
Qed.
End WindowInit.

Lemma window_init_reverses_witness :
  (∃ w', @EntryCache_Init MemStore (@initial_world MemStore sample_db)
         = Done ((), w') ∧
         EntryCache_Get (entryCache w')
         = rev (EntryCache_of_row <$> [entry_row 2; entry_row 1]) ∧
         last (EntryCache_Get (entryCache w'))
         = EntryCache_of_row <$> head [entry_row 2; entry_row 1]) ∧
  (∃ w', @CommentCache_Init MemStore (@initial_world MemStore sample_db)
         = Done ((), w') ∧
         CommentCache_Get (commentCache w') = rev [comment_no 2; comment_no 1] ∧
         last (CommentCache_Get (commentCache w')) = head [comment_no 2; comment_no 1]).
Proof.
  apply (@window_init_reverses MemStore (@initial_world MemStore sample_db));
    reflexivity.
Defined.

(** ** The friendship graph *)

(** What [Insert] changes: exactly the two directions of the new edge. *)
Lemma IsFriend_Insert (fr : FriendRepo) (a b x y : Z) :
  a ≠ b →
  FriendRepo_IsFriend (FriendRepo_Insert fr a b) x y =
  FriendRepo_IsFriend fr x y
  || bool_decide (x = a ∧ y = b) || bool_decide (x = b ∧ y = a).
Proof.
  intros Hab. unfold FriendRepo_IsFriend, FriendRepo_Insert.
  destruct (decide (a = b)) as [|_]; [done|]. simpl.
  destruct (decide (x = y)) as [|Hxy]; [done|].
  rewrite (lookup_insert_ne _ a b) by done.
  rewrite !lookup_insert.
  destruct (decide (b = x)) as [<-|Hbx].
  - rewrite (bool_decide_eq_false_2 (b = a ∧ _)) by (intros [? ?]; congruence).
    rewrite orb_false_r. rewrite lookup_insert.
    destruct (decide (a = y)) as [<-|Hay].
    + rewrite bool_decide_eq_true_2 by done. by rewrite orb_true_r.
    + rewrite (bool_decide_eq_false_2 (b = b ∧ _)) by (intros [? ?]; congruence).
      rewrite orb_false_r. by destruct (friend fr !! b).
  - rewrite (bool_decide_eq_false_2 (x = b ∧ _)) by (intros [? ?]; congruence).
    rewrite orb_false_r.
    destruct (decide (a = x)) as [<-|Hax].
    + rewrite lookup_insert.
      destruct (decide (b = y)) as [<-|Hby].
      * rewrite bool_decide_eq_true_2 by done. by rewrite orb_true_r.
      * rewrite (bool_decide_eq_false_2 (a = a ∧ _)) by (intros [? ?]; congruence).
        rewrite orb_false_r. by destruct (friend fr !! a).
    + rewrite (bool_decide_eq_false_2 (x = a ∧ _)) by (intros [? ?]; congruence).
      by rewrite orb_false_r.
Qed.

Lemma Insert_self (fr : FriendRepo) (a : Z) : FriendRepo_Insert fr a a = fr.
Proof. unfold FriendRepo_Insert. by rewrite decide_True. Qed.

Lemma symmetric_Insert (fr : FriendRepo) (a b : Z) :
  symmetric fr → symmetric (FriendRepo_Insert fr a b).
Proof.
  intros Hsym. destruct (decide (a = b)) as [->|Hab].
  - by rewrite Insert_self.
  - intros x y. rewrite !IsFriend_Insert by done. rewrite (Hsym x y).
    rewrite (bool_decide_ext (y = a ∧ x = b) (x = b ∧ y = a)) by tauto.
    rewrite (bool_decide_ext (y = b ∧ x = a) (x = a ∧ y = b)) by tauto.
    rewrite <- !orb_assoc. f_equal. apply orb_comm.
Qed.

Lemma symmetric_empty : symmetric (mkFriendRepo ∅).
Proof.
  intros x y. unfold FriendRepo_IsFriend. simpl. rewrite !lookup_empty.
  destruct (decide (x = y)) as [->|Hxy]; [by rewrite decide_True|].
  by rewrite decide_False by congruence.
Qed.

(** C2.  Adjacency symmetry: for [a ≠ b], after [Insert(a, b)] both
    [IsFriend(a, b)] and [IsFriend(b, a)] are true, and an [Insert] of any
    pair keeps a symmetric adjacency relation symmetric. *)
Theorem adjacency_symmetry (fr : FriendRepo) (a b : Z) :
  (a ≠ b →
   FriendRepo_IsFriend (FriendRepo_Insert fr a b) a b = true ∧
   FriendRepo_IsFriend (FriendRepo_Insert fr a b) b a = true) ∧
  (symmetric fr → symmetric (FriendRepo_Insert fr a b)).
Proof.
  split.
  - intros Hab. rewrite !IsFriend_Insert by done.
    rewrite (bool_decide_eq_true_2 (a = a ∧ b = b)) by done.
    rewrite (bool_decide_eq_true_2 (b = b ∧ a = a)) by done.
    by rewrite !orb_true_r.
  - apply symmetric_Insert.
Qed.

Lemma adjacency_symmetry_witness :
  (FriendRepo_IsFriend (FriendRepo_Insert (mkFriendRepo ∅) 5 9) 5 9 = true ∧
   FriendRepo_IsFriend (FriendRepo_Insert (mkFriendRepo ∅) 5 9) 9 5 = true) ∧
  symmetric (FriendRepo_Insert (mkFriendRepo ∅) 5 9).
Proof.
  split.
  - apply (proj1 (adjacency_symmetry (mkFriendRepo ∅) 5 9)). lia.
  - apply (proj2 (adjacency_symmetry (mkFriendRepo ∅) 5 9)).
    apply symmetric_empty.
Defined.

(** ** The lazy footprint cache *)

Section LazyCache.
Context `{Store}.

Lemma Get_hit (w : World) (k : Z) (fps : list Footprint) :
  cache (footPrintCache w) !! k = Some fps →
  FoopprintCache_Get k w = Done (fps, w).
Proof.
  intros Hk. unfold FoopprintCache_Get, mbind, M_bind, get. by rewrite Hk.
Qed.

Lemma Get_miss (w : World) (k : Z) (rows : list Footprint) :
  cache (footPrintCache w) !! k = None →
  select_footprints (db w) k 50 = Some rows →
  FoopprintCache_Get k w =
  Done (rows,
        set_footPrintCache
          (mkFoopprintCache (<[k := rows]> (cache (footPrintCache w))))
          (set_db (db w) (SelectFootprints k 50) w)).
Proof.
  intros Hk Hq.
  unfold FoopprintCache_Get, fetchFootprint, db_query, mbind, M_bind, get.
  rewrite Hk. simpl. rewrite Hq.
  rewrite (foldl_snoc_fmap id). simpl. by rewrite list_fmap_id.
Qed.

Lemma Get_miss_abort (w : World) (k : Z) :
  cache (footPrintCache w) !! k = None →
  select_footprints (db w) k 50 = None →
  FoopprintCache_Get k w = Abort.
Proof.
  intros Hk Hq.
  unfold FoopprintCache_Get, fetchFootprint, db_query, mbind, M_bind, get.
  rewrite Hk. simpl. by rewrite Hq.
Qed.

(** A write the Store refuses ends in [panic(err)], before the
    invalidation. *)
Lemma markFootprint_store_error (w : World) (visitor id : Z) (now : Time) :
  visitor ≠ id →
  replace_footprint (db w) id visitor now now = None →
  markFootprint visitor id now w = Abort.
Proof.
  intros Hne Hexec. unfold markFootprint. rewrite decide_True by done.
  unfold mbind, M_bind, db_exec. by rewrite Hexec.
Qed.

(** An operation that does not invalidate [k] leaves its entry. *)
Lemma run_op_keeps (k : Z) (fps : list Footprint) (op : CacheOp) (w w' : World) :
  ¬ invalidates k op →
  cache (footPrintCache w) !! k = Some fps →
  run_op op w = Done ((), w') →
  cache (footPrintCache w') !! k = Some fps.
Proof.
  intros Hop Hk Hrun. destruct op as [j|j|v j now]; simpl in *.
  - unfold mbind, M_bind in Hrun.
    destruct (cache (footPrintCache w) !! j) as [c|] eqn:Hj.
    + rewrite (Get_hit _ _ _ Hj) in Hrun. by injection Hrun as <-.
    + destruct (select_footprints (db w) j 50) as [rows|] eqn:Hq.
      * rewrite (Get_miss _ _ _ Hj Hq) in Hrun. injection Hrun as <-.
        simpl. rewrite lookup_insert_ne; [done|]. congruence.
      * by rewrite (Get_miss_abort _ _ Hj Hq) in Hrun.
  - unfold invalidate, modify in Hrun. injection Hrun as <-.
    simpl. by rewrite lookup_delete_ne.
  - unfold markFootprint in Hrun.
    destruct (decide (v ≠ j)) as [Hvj|Hvj].
    + unfold mbind, M_bind, db_exec, modify in Hrun.
      destruct (replace_footprint (db w) j v now now); [|done].
      injection Hrun as <-. simpl.
      rewrite lookup_delete_ne; [done|]. intros ->. by apply Hop.
    + by injection Hrun as <-.
Qed.

Lemma run_ops_keeps (k : Z) (fps : list Footprint) (ops : list CacheOp) (w w' : World) :
  Forall (λ op, ¬ invalidates k op) ops →
  cache (footPrintCache w) !! k = Some fps →
  run_ops ops w = Done ((), w') →
  cache (footPrintCache w') !! k = Some fps.
Proof.
  intros Hops. revert w. induction Hops as [|op ops Hop Hops IH]; intros w Hk Hrun.
  - by injection Hrun as <-.
  - simpl in Hrun. unfold mbind, M_bind in Hrun.
    destruct (run_op op w) as [[[] w1]|] eqn:Hop1; [|done].
    eapply IH; [|done]. by eapply run_op_keeps.
Qed.
End LazyCache.

Section LazyCacheClaims.
Context `{Store}.

(** C5.  Hit and miss of the lazy cache.  [Get(k)] fetches from the Store
    exactly when [k] is absent: with [k] present it returns the cached
    contents and leaves the whole state, the log of Store calls with it,
    as it was; with [k] absent (the empty cache is a case of this) it
    sends exactly one [SELECT] for [k] with limit 50 and stores the
    result under [k].  A second [Get(k)], at once or after any
    operations that do not invalidate [k], returns the same contents with
    no further Store call.  After [Invalidate(k)] the next [Get(k)] sends
    exactly one [SELECT] again and returns what it answers. *)
Theorem lazy_cache_hit_miss (w : World) (k : Z) :
  (∀ fps, cache (footPrintCache w) !! k = Some fps →
          FoopprintCache_Get k w = Done (fps, w)) ∧
  (∀ rows,
     cache (footPrintCache w) !! k = None →
     select_footprints (db w) k 50 = Some rows →
     ∃ w1,
       FoopprintCache_Get k w = Done (rows, w1) ∧
       db w1 = db w ∧
       calls w1 = calls w ++ [SelectFootprints k 50] ∧
       cache (footPrintCache w1) = <[k := rows]> (cache (footPrintCache w)) ∧
       FoopprintCache_Get k w1 = Done (rows, w1) ∧
       (∀ ops w2,
          Forall (λ op, ¬ invalidates k op) ops →
          run_ops ops w1 = Done ((), w2) →
          FoopprintCache_Get k w2 = Done (rows, w2))) ∧
  (∀ rows,
     select_footprints (db w) k 50 = Some rows →
     ∃ w1 w2,
       invalidate k w = Done ((), w1) ∧
       calls w1 = calls w ∧
       FoopprintCache_Get k w1 = Done (rows, w2) ∧
       calls w2 = calls w ++ [SelectFootprints k 50] ∧
       cache (footPrintCache w2) !! k = Some rows).
Proof.
  split; [|split].
  - intros fps. apply Get_hit.
  - intros rows Hk Hq. eexists. split; [by apply Get_miss|].
    simpl. repeat split.
    + apply Get_hit. simpl. apply lookup_insert_eq.
    + intros ops w2 Hops Hrun. apply Get_hit.
      eapply run_ops_keeps; [done| |done]. simpl. apply lookup_insert_eq.
  - intros rows Hq. do 2 eexists. split; [reflexivity|]. split; [done|].
    split; [apply Get_miss; [apply lookup_delete_eq | done]|].
    simpl. split; [done | apply lookup_insert_eq].
Qed.

(** C9.  Negative caching: when the Store has no footprints for [k], the
    first [Get(k)] stores the empty slice under [k], and every later
    [Get(k)], after any operations that do not invalidate [k], returns
    the empty slice and sends nothing to the Store. *)
Theorem lazy_cache_negative (w : World) (k : Z) :
  cache (footPrintCache w) !! k = None →
  select_footprints (db w) k 50 = Some [] →
  ∃ w1,
    FoopprintCache_Get k w = Done ([], w1) ∧
    calls w1 = calls w ++ [SelectFootprints k 50] ∧
    cache (footPrintCache w1) !! k = Some [] ∧
    ∀ ops w2,
      Forall (λ op, ¬ invalidates k op) ops →
      run_ops ops w1 = Done ((), w2) →
      cache (footPrintCache w2) !! k = Some [] ∧
      FoopprintCache_Get k w2 = Done ([], w2).
Proof.
  intros Hk Hq. eexists. split; [by apply Get_miss|].
  simpl. split; [done|]. split; [apply lookup_insert_eq|].
  intros ops w2 Hops Hrun.
  assert (Hk2 : cache (footPrintCache w2) !! k = Some []).
  { eapply run_ops_keeps; [done| |done]. simpl. apply lookup_insert_eq. }
  split; [done | by apply Get_hit].
Qed.

(** C6.  Footprint write targeting.  For [visitor ≠ owner] and a Store
    that accepts the write, [markFootprint] sends exactly one [replace]
    of the row (owner, visitor) and then deletes the cache entry of
    [owner]: that key is absent afterwards, every other key, the
    visitor's too, keeps its entry, and no other cache changes.  For
    [visitor = owner] nothing happens at all. *)
Theorem markFootprint_targets (w : World) (visitor owner : Z) (now : Time) :
  (∀ d', visitor ≠ owner →
     replace_footprint (db w) owner visitor now now = Some d' →
     ∃ w',
       markFootprint visitor owner now w = Done ((), w') ∧
       db w' = d' ∧
       calls w' = calls w ++ [ReplaceFootprint owner visitor now now] ∧
       cache (footPrintCache w') = delete owner (cache (footPrintCache w)) ∧
       cache (footPrintCache w') !! owner = None ∧
       (∀ j, j ≠ owner →
             cache (footPrintCache w') !! j = cache (footPrintCache w) !! j) ∧
       cache (footPrintCache w') !! visitor = cache (footPrintCache w) !! visitor ∧
       (userRepo w', profileRepo w', friendRepo w', commentCache w', entryCache w')
       = (userRepo w, profileRepo w, friendRepo w, commentCache w, entryCache w)) ∧
  (visitor = owner → markFootprint visitor owner now w = Done ((), w)).
Proof.
  split.
  - intros d' Hne Hexec. eexists. split.
    + unfold markFootprint. rewrite decide_True by done.
      unfold mbind, M_bind, db_exec, modify. rewrite Hexec. reflexivity.
    + simpl. repeat split.
      * apply lookup_delete_eq.
      * intros j Hj. by apply lookup_delete_ne.
      * by apply lookup_delete_ne.
  - intros ->. unfold markFootprint. by rewrite decide_False by (intros Hc; by apply Hc).
Qed.
End LazyCacheClaims.

Example markFootprint_read_only :
  @markFootprint ReadOnlyStore 7 3 200 (@initial_world ReadOnlyStore sample_db)
  = Abort.
Proof. apply (@markFootprint_store_error ReadOnlyStore); [lia | reflexivity]. Qed.

Example count_after_insert :
  FriendRepo_Count (FriendRepo_Insert (mkFriendRepo ∅) 5 9) 5 = 1%Z ∧
  FriendRepo_Count (FriendRepo_Insert (mkFriendRepo ∅) 5 9) 9 = 1%Z.
Proof. split; vm_compute; reflexivity. Qed.

Lemma lazy_cache_hit_miss_witness :
  ∃ w1 : @World MemStore,
    @FoopprintCache_Get MemStore 3 sample_world = Done ([visit_3_by_7], w1) ∧
    calls w1 = [SelectFootprints 3 50] ∧
    @FoopprintCache_Get MemStore 3 w1 = Done ([visit_3_by_7], w1).
Proof.
  destruct (proj1 (proj2 (@lazy_cache_hit_miss MemStore sample_world 3))
              [visit_3_by_7])
    as (w1 & Hget & _ & Hcalls & _ & Hagain & _); [reflexivity | reflexivity |].
  exists w1. split; [exact Hget|]. split; [exact Hcalls | exact Hagain].
Defined.

Lemma lazy_cache_negative_witness :
  ∃ w1 : @World MemStore,
    @FoopprintCache_Get MemStore 42 sample_world = Done ([], w1) ∧
    calls w1 = [SelectFootprints 42 50] ∧
    cache (footPrintCache w1) !! 42%Z = Some [] ∧
    ∀ ops w2,
      Forall (λ op, ¬ invalidates 42 op) ops →
      @run_ops MemStore ops w1 = Done ((), w2) →
      cache (footPrintCache w2) !! 42%Z = Some [] ∧
      @FoopprintCache_Get MemStore 42 w2 = Done ([], w2).
Proof.
  apply (@lazy_cache_negative MemStore sample_world 42); reflexivity.
Defined.

Lemma markFootprint_targets_witness :
  (∃ w' : @World MemStore,
     @markFootprint MemStore 7 3 200 warm_world = Done ((), w') ∧
     cache (footPrintCache w') !! 3%Z = None ∧
     cache (footPrintCache w') !! 7%Z = Some []) ∧
  @markFootprint MemStore 7 7 200 warm_world = Done ((), warm_world).
Proof.
  split.
  - destruct (proj1 (@markFootprint_targets MemStore warm_world 7 3 200)
                (mem_replace_footprint sample_db 3 7 200 200))
      as (w' & Hrun & _ & _ & _ & Howner & _ & Hvisitor & _);
      [lia | reflexivity |].
    exists w'. split; [exact Hrun|]. split; [exact Howner|].
    rewrite Hvisitor. reflexivity.
  - apply (proj2 (@markFootprint_targets MemStore warm_world 7 7 200)).
    reflexivity.
Defined.

(** ** The user mirror *)

Lemma UserRepo_load_snoc (rows : list User) (u : User) :
  UserRepo_load (rows ++ [u]) = UserRepo_add (UserRepo_load rows) u.
Proof. unfold UserRepo_load. apply foldl_snoc. Qed.

(** Each map of the mirror holds, per key, the last row that has the key. *)
Lemma users_load (rows : list User) (id : Z) :
  users (UserRepo_load rows) !! id = last (rows_with_id id rows).
Proof.
  unfold rows_with_id.
  induction rows as [|u rows IH] using rev_ind; [done|].
  rewrite UserRepo_load_snoc, filter_app. simpl. rewrite lookup_insert.
  rewrite filter_cons, filter_nil.
  destruct (decide (User_ID u = id)) as [Hid|Hid].
  - by rewrite last_snoc.
  - by rewrite app_nil_r.
Qed.

Lemma byMail_load (rows : list User) (email : string) :
  byMail (UserRepo_load rows) !! email = User_ID <$> last (rows_with_mail email rows).
Proof.
  unfold rows_with_mail.
  induction rows as [|u rows IH] using rev_ind; [done|].
  rewrite UserRepo_load_snoc, filter_app. simpl. rewrite lookup_insert.
  rewrite filter_cons, filter_nil.
  destruct (decide (User_Email u = email)) as [Hid|Hid].
  - by rewrite last_snoc.
  - by rewrite app_nil_r.
Qed.

Lemma byAccount_load (rows : list User) (account : string) :
  byAccount (UserRepo_load rows) !! account
  = User_ID <$> last (rows_with_account account rows).
Proof.
  unfold rows_with_account.
  induction rows as [|u rows IH] using rev_ind; [done|].
  rewrite UserRepo_load_snoc, filter_app. simpl. rewrite lookup_insert.
  rewrite filter_cons, filter_nil.
  destruct (decide (User_AccountName u = account)) as [Hid|Hid].
  - by rewrite last_snoc.
  - by rewrite app_nil_r.
Qed.

(** A record stored under [id] is a row of the table and carries [id]. *)
Lemma users_load_Some (rows : list User) (id : Z) (u : User) :
  users (UserRepo_load rows) !! id = Some u → User_ID u = id ∧ u ∈ rows.
Proof.
  rewrite users_load. intros Hl. apply last_Some_elem_of in Hl.
  by apply list_elem_of_filter in Hl.
Qed.

(** Every row's id is a key of the primary map. *)
Lemma users_load_row (rows : list User) (u : User) :
  u ∈ rows →
  ∃ u0, users (UserRepo_load rows) !! User_ID u = Some u0 ∧
        User_ID u0 = User_ID u ∧ u0 ∈ rows.
Proof.
  intros Hu.
  destruct (last (rows_with_id (User_ID u) rows)) as [u0|] eqn:Hl.
  - exists u0. rewrite users_load. split; [done|].
    apply last_Some_elem_of in Hl. by apply list_elem_of_filter in Hl.
  - apply last_None in Hl.
    by apply (filter_nil_not_elem_of _ _ u) in Hl.
Qed.

Lemma users_load_unique (rows : list User) (u : User) :
  u ∈ rows →
  (∀ v, v ∈ rows → User_ID v = User_ID u → v = u) →
  users (UserRepo_load rows) !! User_ID u = Some u.
Proof.
  intros Hu Huniq. destruct (users_load_row rows u Hu) as (u0 & Hl & Hid & Hin).
  rewrite Hl. f_equal. by apply Huniq.
Qed.

Lemma byMail_load_row (rows : list User) (u : User) :
  u ∈ rows →
  (∀ v, v ∈ rows → User_Email v = User_Email u → User_ID v = User_ID u) →
  byMail (UserRepo_load rows) !! User_Email u = Some (User_ID u).
Proof.
  intros Hu Huniq. rewrite byMail_load.
  destruct (last (rows_with_mail (User_Email u) rows)) as [u0|] eqn:Hl.
  - apply last_Some_elem_of in Hl. apply list_elem_of_filter in Hl as [Hm Hin].
    simpl. f_equal. by apply Huniq.
  - apply last_None in Hl.
    by apply (filter_nil_not_elem_of _ _ u) in Hl.
Qed.

Lemma byAccount_load_row (rows : list User) (u : User) :
  u ∈ rows →
  (∀ v, v ∈ rows → User_AccountName v = User_AccountName u → User_ID v = User_ID u) →
  byAccount (UserRepo_load rows) !! User_AccountName u = Some (User_ID u).
Proof.
  intros Hu Huniq. rewrite byAccount_load.
  destruct (last (rows_with_account (User_AccountName u) rows)) as [u0|] eqn:Hl.
  - apply last_Some_elem_of in Hl. apply list_elem_of_filter in Hl as [Hm Hin].
    simpl. f_equal. by apply Huniq.
  - apply last_None in Hl.
    by apply (filter_nil_not_elem_of _ _ u) in Hl.
Qed.

Lemma byMail_load_absent (rows : list User) (email : string) :
  (∀ v, v ∈ rows → User_Email v ≠ email) →
  byMail (UserRepo_load rows) !! email = None.
Proof.
  intros Habs. rewrite byMail_load.
  destruct (last (rows_with_mail email rows)) as [u0|] eqn:Hl; [|done].
  apply last_Some_elem_of in Hl. apply list_elem_of_filter in Hl as [Hm Hin].
  by destruct (Habs u0 Hin).
Qed.

Lemma byAccount_load_absent (rows : list User) (account : string) :
  (∀ v, v ∈ rows → User_AccountName v ≠ account) →
  byAccount (UserRepo_load rows) !! account = None.
Proof.
  intros Habs. rewrite byAccount_load.
  destruct (last (rows_with_account account rows)) as [u0|] eqn:Hl; [|done].
  apply last_Some_elem_of in Hl. apply list_elem_of_filter in Hl as [Hm Hin].
  by destruct (Habs u0 Hin).
Qed.

(** The guard [uid != 0] of the secondary lookups. *)
Lemma GetByMail_zero (r : UserRepo) (email : string) :
  default 0%Z (byMail r !! email) = 0%Z → UserRepo_GetByMail r email = None.
Proof.
  intros Hz. unfold UserRepo_GetByMail. rewrite Hz.
  by rewrite decide_False by (intros Hc; by apply Hc).
Qed.

Lemma GetByAccount_zero (r : UserRepo) (account : string) :
  default 0%Z (byAccount r !! account) = 0%Z → UserRepo_GetByAccount r account = None.
Proof.
  intros Hz. unfold UserRepo_GetByAccount. rewrite Hz.
  by rewrite decide_False by (intros Hc; by apply Hc).
Qed.

Lemma GetByMail_nonzero (r : UserRepo) (email : string) (uid : Z) :
  byMail r !! email = Some uid → uid ≠ 0%Z →
  UserRepo_GetByMail r email = UserRepo_Get r uid.
Proof.
  intros Hm Hz. unfold UserRepo_GetByMail, UserRepo_Get. rewrite Hm. simpl.
  by rewrite decide_True.
Qed.

Lemma GetByAccount_nonzero (r : UserRepo) (account : string) (uid : Z) :
  byAccount r !! account = Some uid → uid ≠ 0%Z →
  UserRepo_GetByAccount r account = UserRepo_Get r uid.
Proof.
  intros Hm Hz. unfold UserRepo_GetByAccount, UserRepo_Get. rewrite Hm. simpl.
  by rewrite decide_True.
Qed.

(** A secondary lookup into a loaded mirror never returns a record with
    id 0. *)
Lemma GetByMail_load_id (rows : list User) (email : string) (u : User) :
  UserRepo_GetByMail (UserRepo_load rows) email = Some u → User_ID u ≠ 0%Z.
Proof.
  unfold UserRepo_GetByMail.
  destruct (decide (default 0%Z (byMail (UserRepo_load rows) !! email) ≠ 0%Z))
    as [Hz|Hz]; [|done].
  intros Hu. apply users_load_Some in Hu as [Hid _]. congruence.
Qed.

Lemma GetByAccount_load_id (rows : list User) (account : string) (u : User) :
  UserRepo_GetByAccount (UserRepo_load rows) account = Some u → User_ID u ≠ 0%Z.
Proof.
  unfold UserRepo_GetByAccount.
  destruct (decide (default 0%Z (byAccount (UserRepo_load rows) !! account) ≠ 0%Z))
    as [Hz|Hz]; [|done].
  intros Hu. apply users_load_Some in Hu as [Hid _]. congruence.
Qed.

Section MirrorClaims.
Context `{Store}.

Lemma UserRepo_Init_run (w : World) (rows : list User) :
  select_users (db w) = Some rows →
  UserRepo_Init w =
  Done ((), set_userRepo (UserRepo_load rows) (set_db (db w) SelectUsers w)).
Proof.
  intros Hq. unfold UserRepo_Init, mbind, M_bind, db_query. by rewrite Hq.
Qed.

(** C7, amended.  After [Init] over a user table, for every loaded user
    [u] whose id is not 0: if the rows that share [u]'s address share its
    id, [GetByMail(u.Email)] returns the record [Get(u.ID)] returns; if
    the rows that share [u]'s handle share its id, so does
    [GetByAccount(u.AccountName)]; that record is not [nil], and it is
    [u] itself when no other row has [u]'s id. *)
Theorem mirror_index_consistency (w : World) (rows : list User) (u : User) :
  select_users (db w) = Some rows →
  u ∈ rows →
  User_ID u ≠ 0%Z →
  ∃ w',
    UserRepo_Init w = Done ((), w') ∧
    ((∀ v, v ∈ rows → User_Email v = User_Email u → User_ID v = User_ID u) →
     UserRepo_GetByMail (userRepo w') (User_Email u)
     = UserRepo_Get (userRepo w') (User_ID u)) ∧
    ((∀ v, v ∈ rows → User_AccountName v = User_AccountName u →
           User_ID v = User_ID u) →
     UserRepo_GetByAccount (userRepo w') (User_AccountName u)
     = UserRepo_Get (userRepo w') (User_ID u)) ∧
    is_Some (UserRepo_Get (userRepo w') (User_ID u)) ∧
    ((∀ v, v ∈ rows → User_ID v = User_ID u → v = u) →
     UserRepo_Get (userRepo w') (User_ID u) = Some u).
Proof.
  intros Hq Hu Hid. eexists. split; [by apply UserRepo_Init_run|].
  simpl. repeat split.
  - intros Hmail. apply GetByMail_nonzero; [|done]. by apply byMail_load_row.
  - intros Hacc. apply GetByAccount_nonzero; [|done]. by apply byAccount_load_row.
  - destruct (users_load_row rows u Hu) as (u0 & Hl & _). by exists u0.
  - intros Huniq. by apply users_load_unique.
Qed.

(** C10.  The guard of the secondary lookups.  In any state of the
    mirror, [GetByMail] and [GetByAccount] return [nil] when the index
    reads 0 for the key, and the state, with the log of Store calls, is
    as before.  After [Init] the index reads 0 for every key that no row
    carries.  A row with id 0 is served by [Get(0)] (the last such row
    is; the row itself when it is the only one), but no [GetByMail] and
    no [GetByAccount] returns it, and with its own address or handle they
    return [nil] when the rows sharing that key all have id 0. *)
Theorem mirror_lookup_id_zero (w : World) (rows : list User) :
  (∀ e, default 0%Z (byMail (userRepo w) !! e) = 0%Z →
        getUserFromMail e w = Done (None, w)) ∧
  (∀ a, default 0%Z (byAccount (userRepo w) !! a) = 0%Z →
        getUserFromAccount a w = Done (None, w)) ∧
  (select_users (db w) = Some rows →
   ∃ w',
     UserRepo_Init w = Done ((), w') ∧
     (∀ e, (∀ v, v ∈ rows → User_Email v ≠ e) →
           byMail (userRepo w') !! e = None ∧
           getUserFromMail e w' = Done (None, w')) ∧
     (∀ a, (∀ v, v ∈ rows → User_AccountName v ≠ a) →
           byAccount (userRepo w') !! a = None ∧
           getUserFromAccount a w' = Done (None, w')) ∧
     (∀ u, u ∈ rows → User_ID u = 0%Z →
        (∃ u0, getUser 0 w' = Done (Some u0, w') ∧
               User_ID u0 = 0%Z ∧ u0 ∈ rows) ∧
        ((∀ v, v ∈ rows → User_ID v = 0%Z → v = u) →
         getUser 0 w' = Done (Some u, w')) ∧
        (∀ e, UserRepo_GetByMail (userRepo w') e ≠ Some u) ∧
        (∀ a, UserRepo_GetByAccount (userRepo w') a ≠ Some u) ∧
        ((∀ v, v ∈ rows → User_Email v = User_Email u → User_ID v = 0%Z) →
         getUserFromMail (User_Email u) w' = Done (None, w')) ∧
        ((∀ v, v ∈ rows → User_AccountName v = User_AccountName u →
               User_ID v = 0%Z) →
         getUserFromAccount (User_AccountName u) w' = Done (None, w')))).
Proof.
  split; [|split].
  - intros e Hz. unfold getUserFromMail, mbind, M_bind, get, mret, M_ret.
    by rewrite GetByMail_zero.
  - intros a Hz. unfold getUserFromAccount, mbind, M_bind, get, mret, M_ret.
    by rewrite GetByAccount_zero.
  - intros Hq. eexists. split; [by apply UserRepo_Init_run|].
    split; [|split].
    + intros e Habs. pose proof (byMail_load_absent rows e Habs) as Hn.
      split; [done|].
      unfold getUserFromMail, mbind, M_bind, get, mret, M_ret. simpl.
      rewrite GetByMail_zero; [done|]. by rewrite Hn.
    + intros a Habs. pose proof (byAccount_load_absent rows a Habs) as Hn.
      split; [done|].
      unfold getUserFromAccount, mbind, M_bind, get, mret, M_ret. simpl.
      rewrite GetByAccount_zero; [done|]. by rewrite Hn.
    + intros u Hu Hid. repeat split.
      * destruct (users_load_row rows u Hu) as (u0 & Hl & Hid0 & Hin).
        exists u0. rewrite Hid in *. split; [|done].
        unfold getUser, mbind, M_bind, get, mret, M_ret, UserRepo_Get. simpl.
        by rewrite Hl.
      * intros Huniq.
        unfold getUser, mbind, M_bind, get, mret, M_ret, UserRepo_Get. simpl.
        rewrite <- Hid at 1. rewrite users_load_unique; [done|done|].
        intros v Hv Hv0. apply Huniq; [done|]. congruence.
      * intros e He. simpl in He. by apply GetByMail_load_id in He.
      * intros a Ha. simpl in Ha. by apply GetByAccount_load_id in Ha.
      * intros Hmail.
        unfold getUserFromMail, mbind, M_bind, get, mret, M_ret. simpl.
        rewrite GetByMail_zero; [done|].
        rewrite byMail_load_row; [done|done|].
        intros v Hv Hm. rewrite Hid. by apply Hmail.
      * intros Hacc.
        unfold getUserFromAccount, mbind, M_bind, get, mret, M_ret. simpl.
        rewrite GetByAccount_zero; [done|].
        rewrite byAccount_load_row; [done|done|].
        intros v Hv Hm. rewrite Hid. by apply Hacc.
Qed.
End MirrorClaims.

Lemma mirror_index_consistency_witness :
  ∃ w' : @World MemStore,
    @UserRepo_Init MemStore sample_world = Done ((), w') ∧
    UserRepo_GetByMail (userRepo w') "alice@x" = UserRepo_Get (userRepo w') 1 ∧
    UserRepo_GetByAccount (userRepo w') "alice" = UserRepo_Get (userRepo w') 1 ∧
    UserRepo_Get (userRepo w') 1 = Some alice.
Proof.
  destruct (@mirror_index_consistency MemStore sample_world [alice; bob] alice)
    as (w' & Hinit & Hmail & Haccount & _ & Hget).
  - reflexivity.
  - apply list_elem_of_here.
  - simpl. lia.
  - exists w'. split; [exact Hinit|]. split; [|split].
    + apply Hmail. intros v Hv He. table_rows Hv.
    + apply Haccount. intros v Hv He. table_rows Hv.
    + apply Hget. intros v Hv He. table_rows Hv.
Defined.

(** C7 as stated fails on a table that has a user with id 0: the record is
    loaded and [Get] returns it, but the lookups by its own address and
    handle return [nil]. *)
Lemma mirror_index_consistency_fails_for_id_0 :
  root ∈ mem_users root_db ∧
  ∃ w' : @World MemStore,
    @UserRepo_Init MemStore (@initial_world MemStore root_db) = Done ((), w') ∧
    UserRepo_Get (userRepo w') (User_ID root) = Some root ∧
    UserRepo_GetByMail (userRepo w') (User_Email root)
    ≠ UserRepo_Get (userRepo w') (User_ID root) ∧
    UserRepo_GetByAccount (userRepo w') (User_AccountName root)
    ≠ UserRepo_Get (userRepo w') (User_ID root).
Proof.
  split; [apply list_elem_of_here|].
  eexists. split; [reflexivity|].
  split; [|split]; vm_compute; [reflexivity | discriminate | discriminate].
Qed.

Lemma mirror_lookup_id_zero_witness :
  ∃ w' : @World MemStore,
    @UserRepo_Init MemStore (@initial_world MemStore root_db) = Done ((), w') ∧
    @getUser MemStore 0 w' = Done (Some root, w') ∧
    @getUserFromMail MemStore "root@x" w' = Done (None, w') ∧
    @getUserFromAccount MemStore "root" w' = Done (None, w') ∧
    @getUserFromMail MemStore "nobody@x" w' = Done (None, w').
Proof.
  destruct (proj2 (proj2 (@mirror_lookup_id_zero MemStore
                            (@initial_world MemStore root_db) [root; alice])))
    as (w' & Hinit & Habsent & _ & Hzero); [reflexivity|].
  destruct (Hzero root) as (_ & Hget & _ & _ & Hmail & Haccount);
    [apply list_elem_of_here | reflexivity |].
  exists w'. split; [exact Hinit|]. split; [|split; [|split]].
  - apply Hget. intros v Hv He. table_rows Hv.
  - apply Hmail. intros v Hv He. table_rows Hv.
  - apply Haccount. intros v Hv He. table_rows Hv.
  - apply Habsent. intros v Hv. table_rows Hv.
Defined.

(** ** The bulk loads at process start and on reset *)

Lemma ProfileRepo_load_snoc (rows : list Profile) (p : Profile) :
  ProfileRepo_load (rows ++ [p])
  = ProfileRepo_Update (ProfileRepo_load rows) (Profile_UserID p) p.
Proof. unfold ProfileRepo_load. by rewrite foldl_snoc. Qed.

Lemma profiles_load (rows : list Profile) (id : Z) :
  ProfileRepo_Get (ProfileRepo_load rows) id
  = last (filter (λ p, Profile_UserID p = id) rows).
Proof.
  unfold ProfileRepo_Get.
  induction rows as [|p rows IH] using rev_ind; [done|].
  rewrite ProfileRepo_load_snoc, filter_app. simpl. rewrite lookup_insert.
  rewrite filter_cons, filter_nil.
  destruct (decide (Profile_UserID p = id)) as [Hid|Hid].
  - by rewrite last_snoc.
  - by rewrite app_nil_r.
Qed.

Lemma FriendRepo_load_snoc (fr : FriendRepo) (rows : list (Z * Z)) (a b : Z) :
  FriendRepo_load fr (rows ++ [(a, b)])
  = FriendRepo_Insert (FriendRepo_load fr rows) a b.
Proof. unfold FriendRepo_load. by rewrite foldl_snoc. Qed.

(** The loaded graph has an edge between two different users exactly when
    the table has a row for them, in either direction. *)
Lemma friends_load (rows : list (Z * Z)) (a b : Z) :
  a ≠ b →
  FriendRepo_IsFriend (FriendRepo_load (mkFriendRepo ∅) rows) a b = true
  ↔ (a, b) ∈ rows ∨ (b, a) ∈ rows.
Proof.
  intros Hab. induction rows as [|[x y] rows IH] using rev_ind.
  - unfold FriendRepo_load, FriendRepo_IsFriend. simpl.
    rewrite decide_False by done. rewrite lookup_empty.
    split; [done|]. intros [Hin|Hin]; by apply elem_of_nil in Hin.
  - rewrite FriendRepo_load_snoc. rewrite !elem_of_app, !list_elem_of_singleton.
    destruct (decide (x = y)) as [->|Hxy].
    + rewrite Insert_self, IH. intuition congruence.
    + rewrite IsFriend_Insert by done.
      rewrite !orb_true_iff, !bool_decide_eq_true, IH. intuition congruence.
Qed.

Section BulkLoad.
Context `{Store}.

Lemma loaded_intro (w : World) relation_rows comment_rows user_rows
    entry_rows profile_rows :
  friendRepo w = FriendRepo_load (mkFriendRepo ∅) relation_rows →
  commentCache w = mkCommentCache (rev comment_rows) →
  userRepo w = UserRepo_load user_rows →
  entryCache w = mkEntryCache (rev (EntryCache_of_row <$> entry_rows)) →
  profileRepo w = ProfileRepo_load profile_rows →
  loaded w relation_rows comment_rows user_rows entry_rows profile_rows.
Proof.
  intros Hf Hc Hu He Hp. unfold loaded.
  rewrite Hc, Hu, He, Hp. repeat split.
  - rewrite Hf. by apply friends_load.
  - rewrite Hf. by apply friends_load.
  - intros id. apply users_load.
  - intros e. apply byMail_load.
  - intros a. apply byAccount_load.
  - intros id. apply profiles_load.
Qed.

(** C8, amended.  At process start ([main], from the initial values of
    the package variables) and on the administrative reset
    ([GetInitialize], from any state, after its four [DELETE]s), the
    user and profile mirrors, the friendship graph and the two recency
    windows are loaded in bulk, each by one [SELECT], and then hold the
    rows the Store returned: per key the last row for the mirrors, an
    edge per row in either direction for the graph, the reversed result
    for the windows.  The footprint cache is not loaded: no [SELECT] on
    footprints is sent, and the cache is empty after both. *)
Theorem caches_bulk_load (d : DB)
    (relation_rows : list (Z * Z)) (comment_rows : list Comment)
    (user_rows : list User) (entry_rows : list EntryRow)
    (profile_rows : list Profile) :
  select_relations d = Some relation_rows →
  select_recent_comments d = Some comment_rows →
  select_users d = Some user_rows →
  select_recent_entries d = Some entry_rows →
  select_profiles d = Some profile_rows →
  (∃ w',
     main_init (initial_world d) = Done ((), w') ∧
     db w' = d ∧
     calls w' = [SelectRelations; SelectRecentComments; SelectUsers;
                 SelectRecentEntries; SelectProfiles] ∧
     loaded w' relation_rows comment_rows user_rows entry_rows profile_rows ∧
     cache (footPrintCache w') = ∅) ∧
  (∀ w, trimmed (db w) = d →
     ∃ w',
       GetInitialize w = Done ((), w') ∧
       db w' = d ∧
       calls w' = calls w ++
                  [DeleteAbove relations 500000; DeleteAbove footprints 500000;
                   DeleteAbove entries2 500000; DeleteAbove comments 1500000;
                   SelectRelations; SelectRecentComments; SelectUsers;
                   SelectRecentEntries; SelectProfiles] ∧
       loaded w' relation_rows comment_rows user_rows entry_rows profile_rows ∧
       cache (footPrintCache w') = ∅).
Proof.
  intros Hr Hc Hu He Hp. split.
  - eexists. split.
    + unfold main_init, FriendRepo_Init, CommentCache_Init, UserRepo_Init,
        EntryCache_Init, ProfileRepo_Init, mbind, M_bind, db_query, modify.
      simpl. rewrite Hr. simpl. rewrite Hc, CommentCache_load_rev. simpl.
      rewrite Hu. simpl. rewrite He, EntryCache_load_rev. simpl.
      rewrite Hp. reflexivity.
    + simpl. split; [done|]. split; [done|]. split; [|done].
      by apply loaded_intro.
  - intros w <-. eexists. split.
    + unfold GetInitialize, FriendRepo_Init, CommentCache_Init, UserRepo_Init,
        EntryCache_Init, ProfileRepo_Init, mbind, M_bind, db_query, db_exec_,
        modify.
      simpl. fold (trimmed (db w)).
      rewrite Hr. simpl. rewrite Hc, CommentCache_load_rev. simpl.
      rewrite Hu. simpl. rewrite He, EntryCache_load_rev. simpl.
      rewrite Hp. reflexivity.
    + simpl. split; [done|]. split.
      { rewrite <- !app_assoc. reflexivity. }
      split; [|done]. by apply loaded_intro.
Qed.
End BulkLoad.

Lemma caches_bulk_load_witness :
  (∃ w' : @World MemStore,
     @main_init MemStore sample_world = Done ((), w') ∧
     CommentCache_Get (commentCache w') = [comment_no 1; comment_no 2] ∧
     cache (footPrintCache w') = ∅) ∧
  (∃ w' : @World MemStore,
     @GetInitialize MemStore warm_world = Done ((), w') ∧
     UserRepo_Get (userRepo w') 2 = Some bob ∧
     cache (footPrintCache w') = ∅).
Proof.
  destruct (@caches_bulk_load MemStore sample_db
              [(1, 2); (2, 1)]%Z [comment_no 2; comment_no 1] [alice; bob]
              [entry_row 2; entry_row 1] [])
    as [(w1 & Hmain & _ & _ & Hloaded1 & Hfp1) Hreset]; try (vm_compute; reflexivity).
  destruct (Hreset warm_world) as (w2 & Hinit & _ & _ & Hloaded2 & Hfp2);
    [vm_compute; reflexivity|].
  split.
  - exists w1. split; [exact Hmain|]. split; [|exact Hfp1].
    destruct Hloaded1 as (_ & Hcomments & _). exact Hcomments.
  - exists w2. split; [exact Hinit|]. split; [|exact Hfp2].
    destruct Hloaded2 as (_ & _ & Husers & _). rewrite Husers. vm_compute. reflexivity.
Defined.

(** C8 as stated fails for the footprint cache.  The sample database has
    a footprint on user 3.  After the loads of [main] the cache has no
    entry for user 3, and no [SELECT] on footprints was sent; the reset
    turns a cache that holds the footprints of users 3 and 7 into one
    that has no entry for user 3 either. *)
Lemma footprint_cache_not_bulk_loaded :
  (∃ w' : @World MemStore,
     @main_init MemStore sample_world = Done ((), w') ∧
     @select_footprints MemStore (db w') 3 50 = Some [visit_3_by_7] ∧
     calls w' = [SelectRelations; SelectRecentComments; SelectUsers;
                 SelectRecentEntries; SelectProfiles] ∧
     cache (footPrintCache w') !! 3%Z = None) ∧
  (∃ w' : @World MemStore,
     cache (footPrintCache warm_world) !! 3%Z = Some [visit_3_by_7] ∧
     @GetInitialize MemStore warm_world = Done ((), w') ∧
     @select_footprints MemStore (db w') 3 50 = Some [visit_3_by_7] ∧
     cache (footPrintCache w') !! 3%Z = None).
Proof.
  split.
  - eexists. split; [vm_compute; reflexivity|]. vm_compute; repeat split.
  - eexists. split; [vm_compute; reflexivity|].
    split; [vm_compute; reflexivity|]. vm_compute; repeat split.
Qed.

(** ** Further properties of the recency windows *)

Section WindowSteps.
Context {A : Type}.
Implicit Types s : list A.

Lemma append_trim_last s x : last (append_trim s x) = Some x.
Proof.
  rewrite append_trim_drop.
  rewrite drop_app_le by lia. apply last_snoc.
Qed.

Lemma append_trim_below s x : length s < 1000 → append_trim s x = s ++ [x].
Proof.
  intros Hs. rewrite append_trim_drop.
  replace (length s + 1 - 1000) with 0 by lia. done.
Qed.

Lemma append_trim_full s x : length s = 1000 → append_trim s x = tail s ++ [x].
Proof.
  intros Hs. rewrite append_trim_drop.
  replace (length s + 1 - 1000) with 1 by lia.
  destruct s as [|y s]; [simpl in Hs; lia | done].
Qed.

Lemma drop_app_all s l n : drop (length s + n) (s ++ l) = drop n l.
Proof. rewrite <- drop_drop. by rewrite drop_app_length. Qed.
End WindowSteps.

(** X1.  One insert into a recency window: the inserted item becomes the
    tail of the window; below the capacity nothing is evicted; at the
    capacity exactly the head, the oldest item, is. *)
Theorem window_insert_step (ec : EntryCache) (cc : CommentCache)
    (e : Entry) (c : Comment) :
  (last (EntryCache_Get (EntryCache_Insert ec e)) = Some e ∧
   (length (EntryCache_Get ec) < 1000 →
    EntryCache_Get (EntryCache_Insert ec e) = EntryCache_Get ec ++ [e]) ∧
   (length (EntryCache_Get ec) = 1000 →
    EntryCache_Get (EntryCache_Insert ec e) = tail (EntryCache_Get ec) ++ [e])) ∧
  (last (CommentCache_Get (CommentCache_Insert cc c)) = Some c ∧
   (length (CommentCache_Get cc) < 1000 →
    CommentCache_Get (CommentCache_Insert cc c) = CommentCache_Get cc ++ [c]) ∧
   (length (CommentCache_Get cc) = 1000 →
    CommentCache_Get (CommentCache_Insert cc c)
    = tail (CommentCache_Get cc) ++ [c])).
Proof.
  unfold EntryCache_Get, EntryCache_Insert, CommentCache_Get, CommentCache_Insert.
  simpl. split; (split; [apply append_trim_last|]);
    (split; [apply append_trim_below | apply append_trim_full]).
Qed.

Lemma window_insert_step_witness :
  EntryCache_Get (EntryCache_Insert full_entries (EntryCache_of_row (entry_row 1001)))
  = tail (EntryCache_Get full_entries) ++ [EntryCache_of_row (entry_row 1001)] ∧
  CommentCache_Get (CommentCache_Insert (mkCommentCache [comment_no 1]) (comment_no 2))
  = [comment_no 1] ++ [comment_no 2].
Proof.
  split.
  - apply (window_insert_step full_entries (mkCommentCache [])
             (EntryCache_of_row (entry_row 1001)) (comment_no 1)).
    change (length (EntryCache_of_row <$> (entry_row <$> seq 1 1000)) = 1000).
    by rewrite !length_fmap, length_seq.
  - apply (window_insert_step (mkEntryCache []) (mkCommentCache [comment_no 1])
             (EntryCache_of_row (entry_row 1)) (comment_no 2)).
    simpl. lia.
Defined.

(** X2.  A run of inserts into a window within its capacity leaves the
    last 1000 items of the old window followed by the inserted items, in
    this order; once 1000 or more items have been inserted, nothing of the
    old window is left. *)
Theorem window_insert_run (ec : EntryCache) (cc : CommentCache)
    (es : list Entry) (cs : list Comment) :
  length (EntryCache_Get ec) ≤ 1000 →
  length (CommentCache_Get cc) ≤ 1000 →
  (EntryCache_Get (foldl EntryCache_Insert ec es)
   = drop (length (EntryCache_Get ec) + length es - 1000)
          (EntryCache_Get ec ++ es) ∧
   (1000 ≤ length es →
    EntryCache_Get (foldl EntryCache_Insert ec es)
    = drop (length es - 1000) es)) ∧
  (CommentCache_Get (foldl CommentCache_Insert cc cs)
   = drop (length (CommentCache_Get cc) + length cs - 1000)
          (CommentCache_Get cc ++ cs) ∧
   (1000 ≤ length cs →
    CommentCache_Get (foldl CommentCache_Insert cc cs)
    = drop (length cs - 1000) cs)).
Proof.
  intros Hec Hcc. unfold EntryCache_Get, CommentCache_Get in *. split.
  - rewrite EntryCache_Insert_run by done. split; [done|]. intros Hes.
    replace (length (EntryCache_Recent ec) + length es - 1000)
      with (length (EntryCache_Recent ec) + (length es - 1000)) by lia.
    apply drop_app_all.
  - rewrite CommentCache_Insert_run by done. split; [done|]. intros Hcs.
    replace (length (CommentCache_Recent cc) + length cs - 1000)
      with (length (CommentCache_Recent cc) + (length cs - 1000)) by lia.
    apply drop_app_all.
Qed.

Lemma window_insert_run_witness :
  EntryCache_Get
    (foldl EntryCache_Insert (mkEntryCache [EntryCache_of_row (entry_row 1)])
           [EntryCache_of_row (entry_row 2); EntryCache_of_row (entry_row 3)])
  = [EntryCache_of_row (entry_row 1); EntryCache_of_row (entry_row 2);
     EntryCache_of_row (entry_row 3)] ∧
  CommentCache_Get
    (foldl CommentCache_Insert (mkCommentCache []) [comment_no 1; comment_no 2])
  = [comment_no 1; comment_no 2].
Proof.
  destruct (window_insert_run
              (mkEntryCache [EntryCache_of_row (entry_row 1)]) (mkCommentCache [])
              [EntryCache_of_row (entry_row 2); EntryCache_of_row (entry_row 3)]
              [comment_no 1; comment_no 2])
    as [[He _] [Hc _]]; [simpl; lia | simpl; lia |].
  split; [exact He | exact Hc].
Defined.

(** ** The friends' items of [GetIndex] *)

Section Collect.
Context {A : Type} (P : A → bool).

Lemma collect_loop_spec (window : list A) (n : nat) (acc : list A) :
  n ≤ length window → length acc < 10 →
  collect_loop P window n acc
  = Some (take 10 (acc ++ filter (λ x, P x = true) (rev (take n window)))).
Proof.
  revert acc. induction n as [|i IH]; intros acc Hn Hacc.
  - simpl. rewrite app_nil_r. by rewrite take_ge by lia.
  - destruct (lookup_lt_is_Some_2 window i) as [x Hx]; [lia|].
    simpl. rewrite Hx. simpl.
    rewrite (take_S_r _ _ _ Hx), rev_unit, filter_cons.
    destruct (P x) eqn:HP; simpl.
    + replace (acc ++ x :: filter (λ x, P x = true) (rev (take i window)))
        with ((acc ++ [x]) ++ filter (λ x, P x = true) (rev (take i window)))
        by (by rewrite <- app_assoc).
      destruct (decide (10 ≤ length (acc ++ [x]))) as [Hfull|Hfull].
      * rewrite take_app_le by done. rewrite take_ge by (rewrite length_app in *; simpl in *; lia).
        done.
      * apply IH; [lia|]. lia.
    + apply IH; [lia | done].
Qed.
End Collect.

Lemma permitted2_IsFriend (fr : FriendRepo) (myID anotherID : Z) :
  permitted2 fr myID anotherID = FriendRepo_IsFriend fr myID anotherID.
Proof.
  unfold permitted2, FriendRepo_IsFriend.
  by destruct (decide (myID = anotherID)).
Qed.

Lemma entriesOfFriends_loop_collect (fr : FriendRepo) (userID : Z)
    (recent : list Entry) (n : nat) (acc : list Entry) :
  entriesOfFriends_loop fr userID recent n acc
  = collect_loop (λ e, FriendRepo_IsFriend fr userID (Entry_UserID e))
                 recent n acc.
Proof.
  revert acc. induction n as [|i IH]; intros acc; [done|].
  simpl. destruct (recent !! i) as [e|]; [|done]. simpl.
  rewrite !IH. done.
Qed.

Lemma commentsOfFriends_loop_collect (fr : FriendRepo) (userID : Z)
    (cc : list Comment) (n : nat) (acc : list Comment) :
  commentsOfFriends_loop fr userID cc n acc
  = collect_loop
      (λ c, FriendRepo_IsFriend fr userID (Comment_UserID c)
            && (negb (Comment_private c)
                || FriendRepo_IsFriend fr userID (Comment_EntryOwnerID c)))
      cc n acc.
Proof.
  revert acc. induction n as [|i IH]; intros acc; [done|].
  simpl. destruct (cc !! i) as [c|]; [|done]. simpl.
  rewrite !IH, permitted2_IsFriend.
  destruct (FriendRepo_IsFriend fr userID (Comment_UserID c)); [|done].
  destruct (Comment_private c); [|done].
  by destruct (FriendRepo_IsFriend fr userID (Comment_EntryOwnerID c)).
Qed.

(** X3.  The friends' entries of [GetIndex]: the walk over the window
    never indexes out of range, and collects the first 10, newest first,
    of the entries whose author [IsFriend] accepts, which the user's own
    entries are; it collects fewer only when the window has fewer. *)
Theorem entriesOfFriends_spec (fr : FriendRepo) (userID : Z)
    (recent : list Entry) :
  entriesOfFriends fr userID recent
  = Some (take 10
            (filter (λ e, FriendRepo_IsFriend fr userID (Entry_UserID e) = true)
                    (rev recent))).
Proof.
  unfold entriesOfFriends. rewrite entriesOfFriends_loop_collect.
  rewrite collect_loop_spec by (simpl; lia).
  by rewrite firstn_all.
Qed.

(** X4.  The friends' comments of [GetIndex]: the walk collects the first
    10, newest first, of the comments whose author [IsFriend] accepts and
    which are on a public entry or on an entry whose owner [IsFriend]
    accepts; the visibility is the one stored with the comment. *)
Theorem commentsOfFriends_spec (fr : FriendRepo) (userID : Z)
    (cc : list Comment) :
  commentsOfFriends fr userID cc
  = Some (take 10
            (filter
               (λ c, FriendRepo_IsFriend fr userID (Comment_UserID c)
                     && (negb (Comment_private c)
                         || FriendRepo_IsFriend fr userID (Comment_EntryOwnerID c))
                     = true)
               (rev cc))).
Proof.
  unfold commentsOfFriends. rewrite commentsOfFriends_loop_collect.
  rewrite collect_loop_spec by (simpl; lia).
  by rewrite firstn_all.
Qed.

(** ** Further properties of the friendship graph *)

(** [set_solver] clears hypotheses by name as it goes and warns when one
    is already gone. *)
Set Warnings "-clear-no-such-hyp".

(** The adjacency map of [k] after [Insert(a, b)]. *)
Lemma friend_Insert_lookup (fr : FriendRepo) (a b k : Z) :
  a ≠ b →
  friend (FriendRepo_Insert fr a b) !! k
  = if decide (k = b) then Some (<[a := true]> (default ∅ (friend fr !! b)))
    else if decide (k = a) then Some (<[b := true]> (default ∅ (friend fr !! a)))
    else friend fr !! k.
Proof.
  intros Hab. unfold FriendRepo_Insert. rewrite decide_False by done. simpl.
  rewrite (lookup_insert_ne _ a b) by done.
  destruct (decide (k = b)) as [->|Hkb].
  - by rewrite lookup_insert_eq.
  - rewrite lookup_insert_ne by done.
    destruct (decide (k = a)) as [->|Hka].
    + by rewrite lookup_insert_eq.
    + by rewrite lookup_insert_ne.
Qed.

(** The neighbours of [c] after [Insert(a, b)]. *)
Lemma adjacent_Insert (fr : FriendRepo) (a b c : Z) :
  a ≠ b →
  dom (default ∅ (friend (FriendRepo_Insert fr a b) !! c))
  = dom (default ∅ (friend fr !! c))
    ∪ (if decide (c = a) then {[b]} else if decide (c = b) then {[a]} else ∅).
Proof.
  intros Hab. rewrite friend_Insert_lookup by done.
  destruct (decide (c = b)) as [->|Hcb].
  - rewrite decide_False by done. simpl. rewrite dom_insert_L. set_solver.
  - destruct (decide (c = a)) as [->|Hca].
    + simpl. rewrite dom_insert_L. set_solver.
    + set_solver.
Qed.

Lemma Count_dom (fr : FriendRepo) (c : Z) :
  FriendRepo_Count fr c = Z.of_nat (size (dom (default ∅ (friend fr !! c)))).
Proof.
  unfold FriendRepo_Count. destruct (friend fr !! c) as [m|]; simpl.
  - by rewrite size_dom.
  - by rewrite dom_empty_L, size_empty.
Qed.

Lemma neighbours_snoc (a x y : Z) (rows : list (Z * Z)) :
  neighbours a (rows ++ [(x, y)])
  = neighbours a rows
    ∪ (if decide (x = y) then ∅
       else if decide (x = a) then {[y]}
       else if decide (y = a) then {[x]} else ∅).
Proof.
  unfold neighbours. rewrite bind_app, list_to_set_app_L. f_equal.
  simpl. repeat case_decide; simpl; set_solver.
Qed.

Lemma elem_of_neighbours (a b : Z) (rows : list (Z * Z)) :
  b ∈ neighbours a rows ↔ a ≠ b ∧ ((a, b) ∈ rows ∨ (b, a) ∈ rows).
Proof.
  induction rows as [|[x y] rows IH] using rev_ind.
  - unfold neighbours. simpl. split; [set_solver|].
    intros [_ [Hin|Hin]]; by apply elem_of_nil in Hin.
  - rewrite neighbours_snoc, elem_of_union, IH, !elem_of_app,
      !list_elem_of_singleton.
    repeat case_decide; subst;
      rewrite ?elem_of_singleton, ?elem_of_empty; intuition congruence.
Qed.

Lemma adjacent_load (a : Z) (rows : list (Z * Z)) :
  dom (default ∅ (friend (FriendRepo_load (mkFriendRepo ∅) rows) !! a))
  = neighbours a rows.
Proof.
  induction rows as [|[x y] rows IH] using rev_ind.
  - unfold FriendRepo_load, neighbours. simpl. rewrite lookup_empty. simpl.
    by rewrite dom_empty_L.
  - rewrite FriendRepo_load_snoc, neighbours_snoc.
    destruct (decide (x = y)) as [->|Hxy].
    + rewrite Insert_self, IH. set_solver.
    + rewrite adjacent_Insert, IH by done. f_equal.
      repeat case_decide; subst; done.
Qed.

Lemma FriendRepo_eq (fr1 fr2 : FriendRepo) :
  (∀ k, friend fr1 !! k = friend fr2 !! k) → fr1 = fr2.
Proof.
  intros Heq. destruct fr1 as [m1], fr2 as [m2]. f_equal. by apply map_eq.
Qed.

Lemma Insert_Insert_comm (fr : FriendRepo) (a b c d : Z) :
  FriendRepo_Insert (FriendRepo_Insert fr a b) c d
  = FriendRepo_Insert (FriendRepo_Insert fr c d) a b.
Proof.
  destruct (decide (a = b)) as [->|Hab]; [by rewrite !Insert_self|].
  destruct (decide (c = d)) as [->|Hcd]; [by rewrite !Insert_self|].
  apply FriendRepo_eq. intros k.
  rewrite !friend_Insert_lookup by done.
  adjacency_cases.
Qed.

Lemma Insert_idempotent (fr : FriendRepo) (a b : Z) :
  FriendRepo_Insert (FriendRepo_Insert fr a b) a b = FriendRepo_Insert fr a b.
Proof.
  destruct (decide (a = b)) as [->|Hab]; [by rewrite !Insert_self|].
  apply FriendRepo_eq. intros k.
  rewrite (friend_Insert_lookup (FriendRepo_Insert fr a b)) by done.
  rewrite !friend_Insert_lookup by done.
  adjacency_cases.
Qed.

Lemma Insert_swap (fr : FriendRepo) (a b : Z) :
  FriendRepo_Insert fr a b = FriendRepo_Insert fr b a.
Proof.
  destruct (decide (a = b)) as [->|Hab]; [done|].
  apply FriendRepo_eq. intros k.
  rewrite !friend_Insert_lookup by done.
  adjacency_cases.
Qed.

Lemma FriendRepo_load_cons (fr : FriendRepo) (ab : Z * Z) (rows : list (Z * Z)) :
  FriendRepo_load fr (ab :: rows)
  = FriendRepo_load (FriendRepo_Insert fr ab.1 ab.2) rows.
Proof. done. Qed.

Lemma FriendRepo_load_permutation (rows rows' : list (Z * Z)) :
  rows ≡ₚ rows' →
  ∀ fr, FriendRepo_load fr rows = FriendRepo_load fr rows'.
Proof.
  induction 1 as [|ab rows rows' _ IH|ab cd rows|rows1 rows2 rows3 _ IH1 _ IH2];
    intros fr.
  - done.
  - rewrite !FriendRepo_load_cons. apply IH.
  - rewrite !FriendRepo_load_cons. by rewrite Insert_Insert_comm.
  - by rewrite IH1, IH2.
Qed.

(** X5.  What [Insert] changes.  For [a ≠ b], [IsFriend] holds of a pair
    after [Insert(a, b)] exactly when it held before or the pair is
    [(a, b)] or [(b, a)]: no edge is removed and no other edge appears.
    [Insert(a, a)] changes nothing. *)
Theorem friend_insert_frame (fr : FriendRepo) (a b : Z) :
  (a ≠ b →
   ∀ x y, FriendRepo_IsFriend (FriendRepo_Insert fr a b) x y = true
          ↔ FriendRepo_IsFriend fr x y = true
            ∨ (x = a ∧ y = b) ∨ (x = b ∧ y = a)) ∧
  FriendRepo_Insert fr a a = fr.
Proof.
  split; [|apply Insert_self].
  intros Hab x y. rewrite IsFriend_Insert by done.
  rewrite !orb_true_iff, !bool_decide_eq_true. tauto.
Qed.

Lemma friend_insert_frame_witness :
  FriendRepo_IsFriend (FriendRepo_Insert (mkFriendRepo ∅) 5 9) 9 5 = true
  ↔ FriendRepo_IsFriend (mkFriendRepo ∅) 9 5 = true
    ∨ (9 = 5 ∧ 5 = 9)%Z ∨ (9 = 9 ∧ 5 = 5)%Z.
Proof.
  apply (proj1 (friend_insert_frame (mkFriendRepo ∅) 5 9)). lia.
Defined.

(** X6.  [Insert] is idempotent and does not depend on the order of its
    arguments, and two inserts commute; so the graph the rows of the table
    build does not depend on their order. *)
Theorem friend_insert_order (fr : FriendRepo) (a b c d : Z)
    (rows rows' : list (Z * Z)) :
  FriendRepo_Insert (FriendRepo_Insert fr a b) a b = FriendRepo_Insert fr a b ∧
  FriendRepo_Insert fr a b = FriendRepo_Insert fr b a ∧
  FriendRepo_Insert (FriendRepo_Insert fr a b) c d
  = FriendRepo_Insert (FriendRepo_Insert fr c d) a b ∧
  (rows ≡ₚ rows' → FriendRepo_load fr rows = FriendRepo_load fr rows').
Proof.
  split; [apply Insert_idempotent|]. split; [apply Insert_swap|].
  split; [apply Insert_Insert_comm|].
  intros Hp. by apply FriendRepo_load_permutation.
Qed.

Lemma friend_insert_order_witness :
  FriendRepo_load (mkFriendRepo ∅) [(1, 2); (3, 1)]%Z
  = FriendRepo_load (mkFriendRepo ∅) [(3, 1); (1, 2)]%Z.
Proof.
  apply (friend_insert_order (mkFriendRepo ∅) 0 0 0 0). apply perm_swap.
Defined.

Section FriendInit.
Context `{Store}.

(** X7.  [FriendRepo.Init] rebuilds the graph from the table alone,
    whatever it held before: afterwards, for [a ≠ b], [IsFriend(a, b)]
    holds exactly when the table has the row [(a, b)] or [(b, a)], and
    [Count(a)] is the number of different users, [a] apart, that share a
    row with [a]; rows that repeat a pair or pair a user with itself do
    not count. *)
Theorem friend_init (w : World) (rows : list (Z * Z)) :
  select_relations (db w) = Some rows →
  ∃ w',
    FriendRepo_Init w = Done ((), w') ∧
    calls w' = calls w ++ [SelectRelations] ∧
    (∀ a b, a ≠ b →
       FriendRepo_IsFriend (friendRepo w') a b = true
       ↔ (a, b) ∈ rows ∨ (b, a) ∈ rows) ∧
    (∀ a, FriendRepo_Count (friendRepo w') a
          = Z.of_nat (size (neighbours a rows))) ∧
    (∀ a b, b ∈ neighbours a rows ↔ a ≠ b ∧ ((a, b) ∈ rows ∨ (b, a) ∈ rows)).
Proof.
  intros Hq. eexists. split.
  - unfold FriendRepo_Init, mbind, M_bind, modify, db_query. simpl.
    rewrite Hq. reflexivity.
  - simpl. split; [done|]. split; [|split].
    + intros a b Hab. by apply friends_load.
    + intros a. by rewrite Count_dom, adjacent_load.
    + intros a b. apply elem_of_neighbours.
Qed.
End FriendInit.

Lemma friend_init_witness :
  ∃ w' : @World MemStore,
    @FriendRepo_Init MemStore stale_world = Done ((), w') ∧
    FriendRepo_IsFriend (friendRepo w') 2 1 = true ∧
    FriendRepo_Count (friendRepo w') 1 = 1%Z.
Proof.
  destruct (@friend_init MemStore stale_world [(1, 2); (2, 1)]%Z)
    as (w' & Hinit & _ & Hfriend & Hcount & _); [reflexivity|].
  exists w'. split; [exact Hinit|]. split.
  - apply Hfriend; [lia|]. right. apply list_elem_of_here.
  - rewrite Hcount. vm_compute. reflexivity.
Defined.

(** ** The profile mirror *)

(** X8.  [Update] and [Get] of the profile mirror: [Get(id)] after
    [Update(id, prof)] returns [prof], whatever user id [prof] itself
    carries; the profiles of the other ids stay; of two updates of one id
    the second wins. *)
Theorem profile_update_get (r : ProfileRepo) (id : Z) (prof prof' : Profile) :
  ProfileRepo_Get (ProfileRepo_Update r id prof) id = Some prof ∧
  (∀ j, j ≠ id →
        ProfileRepo_Get (ProfileRepo_Update r id prof) j = ProfileRepo_Get r j) ∧
  ProfileRepo_Update (ProfileRepo_Update r id prof) id prof'
  = ProfileRepo_Update r id prof'.
Proof.
  unfold ProfileRepo_Get, ProfileRepo_Update. simpl. split; [|split].
  - apply lookup_insert_eq.
  - intros j Hj. by apply lookup_insert_ne.
  - by rewrite insert_insert_eq.
Qed.

Section ProfileInit.
Context `{Store}.

(** X9.  [ProfileRepo.Init] replaces the mirror by the table: afterwards
    [Get(id)] returns the last row of the table with user id [id], and
    [nil] when there is none; what [Update] had stored is gone.  A query
    that fails ends the process. *)
Theorem profile_init (w : World) :
  (∀ rows, select_profiles (db w) = Some rows →
     ∃ w',
       ProfileRepo_Init w = Done ((), w') ∧
       calls w' = calls w ++ [SelectProfiles] ∧
       (∀ id, ProfileRepo_Get (profileRepo w') id
              = last (filter (λ p, Profile_UserID p = id) rows)) ∧
       (∀ id, (∀ p, p ∈ rows → Profile_UserID p ≠ id) →
              ProfileRepo_Get (profileRepo w') id = None) ∧
       (∀ id p, ProfileRepo_Get (profileRepo w') id = Some p →
                Profile_UserID p = id ∧ p ∈ rows)) ∧
  (select_profiles (db w) = None → ProfileRepo_Init w = Abort).
Proof.
  split.
  - intros rows Hq. eexists. split.
    + unfold ProfileRepo_Init, mbind, M_bind, modify, db_query.
      rewrite Hq. reflexivity.
    + simpl. split; [done|]. split; [|split].
      * intros id. apply profiles_load.
      * intros id Habs. rewrite profiles_load.
        destruct (last _) as [p|] eqn:Hl; [|done].
        apply last_Some_elem_of, list_elem_of_filter in Hl as [Hid Hin].
        by destruct (Habs p Hin).
      * intros id p. rewrite profiles_load. intros Hl.
        by apply last_Some_elem_of, list_elem_of_filter in Hl.
  - intros Hq. unfold ProfileRepo_Init, mbind, M_bind, db_query. by rewrite Hq.
Qed.
End ProfileInit.

Lemma profile_init_witness :
  ∃ w' : @World MemStore,
    @ProfileRepo_Init MemStore (@initial_world MemStore profile_db) = Done ((), w') ∧
    ProfileRepo_Get (profileRepo w') 1 = Some profile_new ∧
    ProfileRepo_Get (profileRepo w') 2 = None.
Proof.
  destruct (proj1 (@profile_init MemStore (@initial_world MemStore profile_db))
              [profile_old; profile_new])
    as (w' & Hinit & _ & Hlast & Hnone & _); [reflexivity|].
  exists w'. split; [exact Hinit|]. split.
  - rewrite Hlast. reflexivity.
  - apply Hnone. intros p Hp. table_rows Hp.
Defined.

(** ** Further properties of the user mirror *)

Lemma NoDup_fmap_eq {A B} (f : A → B) (l : list A) (x y : A) :
  NoDup (f <$> l) → x ∈ l → y ∈ l → f x = f y → x = y.
Proof.
  induction l as [|z l IH]; intros Hnd Hx Hy Hf.
  - by apply elem_of_nil in Hx.
  - rewrite fmap_cons in Hnd. apply NoDup_cons in Hnd as [Hz Hnd].
    apply elem_of_cons in Hx as [->|Hx]; apply elem_of_cons in Hy as [->|Hy].
    + done.
    + destruct Hz. rewrite Hf. by apply list_elem_of_fmap_2.
    + destruct Hz. rewrite <- Hf. by apply list_elem_of_fmap_2.
    + by apply IH.
Qed.

Lemma GetByMail_load_sound (rows : list User) (email : string) (u : User) :
  NoDup (User_ID <$> rows) →
  UserRepo_GetByMail (UserRepo_load rows) email = Some u →
  u ∈ rows ∧ User_Email u = email ∧ User_ID u ≠ 0%Z.
Proof.
  intros Hnd Hget. pose proof (GetByMail_load_id _ _ _ Hget) as Hid.
  unfold UserRepo_GetByMail in Hget.
  destruct (decide (default 0%Z (byMail (UserRepo_load rows) !! email) ≠ 0%Z))
    as [Hz|Hz]; [|done].
  apply users_load_Some in Hget as [Hkey Hin].
  rewrite byMail_load in Hkey, Hz.
  destruct (last (rows_with_mail email rows)) as [v|] eqn:Hl; [|done].
  apply last_Some_elem_of, list_elem_of_filter in Hl as [Hmail Hv].
  simpl in Hkey. assert (u = v) as -> by by apply (NoDup_fmap_eq User_ID rows).
  done.
Qed.

Lemma GetByAccount_load_sound (rows : list User) (account : string) (u : User) :
  NoDup (User_ID <$> rows) →
  UserRepo_GetByAccount (UserRepo_load rows) account = Some u →
  u ∈ rows ∧ User_AccountName u = account ∧ User_ID u ≠ 0%Z.
Proof.
  intros Hnd Hget. pose proof (GetByAccount_load_id _ _ _ Hget) as Hid.
  unfold UserRepo_GetByAccount in Hget.
  destruct (decide (default 0%Z (byAccount (UserRepo_load rows) !! account) ≠ 0%Z))
    as [Hz|Hz]; [|done].
  apply users_load_Some in Hget as [Hkey Hin].
  rewrite byAccount_load in Hkey, Hz.
  destruct (last (rows_with_account account rows)) as [v|] eqn:Hl; [|done].
  apply last_Some_elem_of, list_elem_of_filter in Hl as [Hacc Hv].
  simpl in Hkey. assert (u = v) as -> by by apply (NoDup_fmap_eq User_ID rows).
  done.
Qed.

Section UserInit.
Context `{Store}.

(** X10.  What the lookups of the user mirror return after [Init].  A
    record [Get(id)] returns is a row of the table and has the id [id].
    When no two rows of the table share an id, a record [GetByMail(e)]
    returns is a row with the address [e], and a record [GetByAccount(a)]
    returns is a row with the handle [a]; neither has the id 0.  A query
    that fails ends the process. *)
Theorem user_lookup_sound (w : World) :
  (∀ rows, select_users (db w) = Some rows →
     ∃ w',
       UserRepo_Init w = Done ((), w') ∧
       calls w' = calls w ++ [SelectUsers] ∧
       (∀ id u, UserRepo_Get (userRepo w') id = Some u →
                u ∈ rows ∧ User_ID u = id) ∧
       (NoDup (User_ID <$> rows) →
        (∀ e u, UserRepo_GetByMail (userRepo w') e = Some u →
                u ∈ rows ∧ User_Email u = e ∧ User_ID u ≠ 0%Z) ∧
        (∀ a u, UserRepo_GetByAccount (userRepo w') a = Some u →
                u ∈ rows ∧ User_AccountName u = a ∧ User_ID u ≠ 0%Z))) ∧
  (select_users (db w) = None → UserRepo_Init w = Abort).
Proof.
  split.
  - intros rows Hq. eexists. split; [by apply UserRepo_Init_run|].
    simpl. split; [done|]. split.
    + intros id u Hget. by apply users_load_Some in Hget as [? ?].
    + intros Hnd. split.
      * intros e u. by apply GetByMail_load_sound.
      * intros a u. by apply GetByAccount_load_sound.
  - intros Hq. unfold UserRepo_Init, mbind, M_bind, db_query. by rewrite Hq.
Qed.
End UserInit.

Lemma user_lookup_sound_witness :
  ∃ w' : @World MemStore,
    @UserRepo_Init MemStore sample_world = Done ((), w') ∧
    ∀ e u, UserRepo_GetByMail (userRepo w') e = Some u →
           u ∈ [alice; bob] ∧ User_Email u = e ∧ User_ID u ≠ 0%Z.
Proof.
  destruct (proj1 (@user_lookup_sound MemStore sample_world) [alice; bob])
    as (w' & Hinit & _ & _ & Hsound); [reflexivity|].
  exists w'. split; [exact Hinit|].
  apply Hsound. vm_compute. repeat constructor; set_solver.
Defined.

(** Without that hypothesis the lookup by address can return a record with
    another address: two rows with the id 1. *)
Example GetByMail_shared_id :
  UserRepo_GetByMail
    (UserRepo_load [alice; mkUser 1 "alias" "Alias" "alias@x"]) "alice@x"
  = Some (mkUser 1 "alias" "Alias" "alias@x").
Proof. vm_compute. reflexivity. Qed.

(** ** Further properties of the lazy footprint cache *)

Section LazyCacheMore.
Context `{Store}.

(** X11.  What [Get(k)] leaves behind.  It panics exactly when [k] is not
    cached and the query fails.  When it returns, [k] is cached with what
    was returned, every other key has the entry it had, the database and
    the other caches are as before, and the Store has been sent nothing
    or one [SELECT] for [k]. *)
Theorem lazy_cache_get_frame (w : World) (k : Z) :
  (FoopprintCache_Get k w = Abort
   ↔ cache (footPrintCache w) !! k = None ∧
     select_footprints (db w) k 50 = None) ∧
  (∀ fps w',
     FoopprintCache_Get k w = Done (fps, w') →
     cache (footPrintCache w') !! k = Some fps ∧
     (∀ j, j ≠ k →
           cache (footPrintCache w') !! j = cache (footPrintCache w) !! j) ∧
     db w' = db w ∧
     (userRepo w', profileRepo w', friendRepo w', commentCache w', entryCache w')
     = (userRepo w, profileRepo w, friendRepo w, commentCache w, entryCache w) ∧
     (calls w' = calls w ∨ calls w' = calls w ++ [SelectFootprints k 50])).
Proof.
  destruct (cache (footPrintCache w) !! k) as [c|] eqn:Hk.
  - rewrite (Get_hit _ _ _ Hk). split.
    + split; [done | by intros [? _]].
    + intros fps w' [= <- <-]. repeat (split; [done|]). by left.
  - destruct (select_footprints (db w) k 50) as [rows|] eqn:Hq.
    + rewrite (Get_miss _ _ _ Hk Hq). split.
      * split; [done | by intros [_ ?]].
      * intros fps w' [= <- <-]. simpl. split; [apply lookup_insert_eq|].
        split; [intros j Hj; by apply lookup_insert_ne|].
        repeat (split; [done|]). by right.
    + rewrite (Get_miss_abort _ _ Hk Hq). split; [done|].
      intros fps w' Hd. discriminate.
Qed.

(** X12.  A visit, then a read.  After [markFootprint(visitor, owner)] with
    [visitor ≠ owner], the next [Get(owner)] sends one [SELECT] to the
    database as the write left it and returns its rows, whatever the cache
    held for [owner] before; a cached entry of the visitor is served
    without a Store call, before and after. *)
Theorem visit_then_get (w : World) (visitor owner : Z) (now : Time)
    (d' : DB) (rows : list Footprint) :
  visitor ≠ owner →
  replace_footprint (db w) owner visitor now now = Some d' →
  select_footprints d' owner 50 = Some rows →
  ∃ w1 w2,
    markFootprint visitor owner now w = Done ((), w1) ∧
    FoopprintCache_Get owner w1 = Done (rows, w2) ∧
    db w2 = d' ∧
    calls w2 = calls w ++ [ReplaceFootprint owner visitor now now;
                           SelectFootprints owner 50] ∧
    cache (footPrintCache w2) !! owner = Some rows ∧
    (∀ fps, cache (footPrintCache w) !! visitor = Some fps →
            FoopprintCache_Get visitor w = Done (fps, w) ∧
            FoopprintCache_Get visitor w2 = Done (fps, w2)).
Proof.
  intros Hne Hexec Hq. do 2 eexists. split.
  - unfold markFootprint. rewrite decide_True by done.
    unfold mbind, M_bind, db_exec, modify. rewrite Hexec. reflexivity.
  - split.
    + apply Get_miss; simpl; [apply lookup_delete_eq | done].
    + simpl. split; [done|]. split; [by rewrite <- app_assoc|].
      split; [apply lookup_insert_eq|].
      intros fps Hv. split; [by apply Get_hit|].
      apply Get_hit. simpl.
      rewrite lookup_insert_ne by done. by rewrite lookup_delete_ne.
Qed.
End LazyCacheMore.

Lemma lazy_cache_get_frame_witness :
  ∃ w' : @World MemStore,
    @FoopprintCache_Get MemStore 3 sample_world = Done ([visit_3_by_7], w') ∧
    cache (footPrintCache w') !! 3%Z = Some [visit_3_by_7] ∧
    db w' = sample_db.
Proof.
  set (w' := @set_footPrintCache MemStore
               (mkFoopprintCache (<[3%Z := [visit_3_by_7]]> ∅))
               (@set_db MemStore sample_db (SelectFootprints 3 50) sample_world)).
  assert (Hget : @FoopprintCache_Get MemStore 3 sample_world
                 = Done ([visit_3_by_7], w')) by (vm_compute; reflexivity).
  destruct (proj2 (@lazy_cache_get_frame MemStore sample_world 3) _ _ Hget)
    as (Hk & _ & Hdb & _).
  exists w'. split; [exact Hget|]. split; [exact Hk | exact Hdb].
Defined.

Lemma visit_then_get_witness :
  ∃ w1 w2 : @World MemStore,
    @markFootprint MemStore 7 3 200 warm_world = Done ((), w1) ∧
    @FoopprintCache_Get MemStore 3 w1
    = Done ([mkFootprint 3 7 200 200; visit_3_by_7], w2) ∧
    @FoopprintCache_Get MemStore 7 w2 = Done ([], w2).
Proof.
  destruct (@visit_then_get MemStore warm_world 7 3 200
              (mem_replace_footprint sample_db 3 7 200 200)
              [mkFootprint 3 7 200 200; visit_3_by_7])
    as (w1 & w2 & Hmark & Hget & _ & _ & _ & Hvisitor);
    [lia | reflexivity | vm_compute; reflexivity |].
  exists w1, w2. split; [exact Hmark|]. split; [exact Hget|].
  apply (Hvisitor []). vm_compute. reflexivity.
Defined.

(** ** The reset against a fresh start *)

Section Reset.
Context `{Store}.

(** X13.  Nothing of the old caches survives the reset: [GetInitialize],
    from any state, ends with the caches, and the database, that the bulk
    loads of [main] give a fresh process on the trimmed database, and it
    panics exactly when those would. *)
Theorem reset_as_fresh_start (w : World) :
  match GetInitialize w, main_init (initial_world (trimmed (db w))) with
  | Done (_, w1), Done (_, w2) => caches w1 = caches w2 ∧ db w1 = db w2
  | Abort, Abort => True
  | _, _ => False
  end.
Proof.
  unfold GetInitialize, main_init, FriendRepo_Init, CommentCache_Init,
    UserRepo_Init, EntryCache_Init, ProfileRepo_Init, mbind, M_bind, db_query,
    db_exec_, modify.
  simpl. fold (trimmed (db w)).
  destruct (select_relations (trimmed (db w))) as [rr|]; simpl; [|done].
  destruct (select_recent_comments (trimmed (db w))) as [cr|]; simpl; [|done].
  rewrite CommentCache_load_rev. simpl.
  destruct (select_users (trimmed (db w))) as [ur|]; simpl; [|done].
  destruct (select_recent_entries (trimmed (db w))) as [er|]; simpl; [|done].
  rewrite EntryCache_load_rev. simpl.
  destruct (select_profiles (trimmed (db w))) as [pr|]; simpl; [|done].
  done.
Qed.
End Reset.

(** ** The slice of footprints and its capacity *)

Section FootprintSlice.
Context {A : Type} (zero : A) (grow : nat → nat → nat).

(** The slice after the appends of [rows] to [make([]T, 0, 10)]: the rows,
    then zero values up to a capacity [c] that is still 10 when at most
    10 rows were appended. *)
Lemma foldl_slice_append (rows : list A) :
  ∃ c, 10 ≤ c ∧ length rows ≤ c ∧ (length rows ≤ 10 → c = 10) ∧
       foldl (slice_append zero grow) (slice_make zero 10) rows
       = mkSlice (rows ++ replicate (c - length rows) zero) (length rows).
Proof.
  induction rows as [|x rows IH] using rev_ind.
  - exists 10. simpl. repeat split; lia.
  - destruct IH as (c & Hc10 & Hlen & Hsmall & IH).
    rewrite foldl_snoc, IH. unfold slice_append, slice_cap, slice_elems. simpl.
    assert (Hcap : length (rows ++ replicate (c - length rows) zero) = c)
      by (rewrite length_app, length_replicate; lia).
    rewrite Hcap, length_app. simpl.
    destruct (decide (length rows < c)) as [Hroom|Hfull].
    + exists c.
      repeat split; [lia | lia | intros; apply Hsmall; lia |].
      f_equal; [|lia].
      rewrite insert_app_r_alt by lia. rewrite Nat.sub_diag.
      replace (c - length rows) with (S (c - (length rows + 1))) by lia.
      simpl. by rewrite <- app_assoc.
    + assert (length rows = c) as Hc by lia.
      exists (S (length rows) + (grow c (S (length rows)) - S (length rows))).
      repeat split; [lia | lia | intros; lia |].
      f_equal; [|lia].
      rewrite take_app_length. rewrite <- app_assoc. simpl.
      do 3 f_equal. lia.
Qed.
End FootprintSlice.

(** X14.  The slice [fetchFootprint] returns and the two slicings of it.
    It holds the rows of the query in their order, in an array of capacity
    10 when there are at most 10 rows.  [footprints[:10]], as [GetIndex]
    takes it, is always in range and has 10 elements: the first 10 rows,
    or all the rows followed by zero values.  [footprints[:50]], as
    [GetFootprints] takes it, is out of range and panics when the query
    returned at most 10 rows; it is in range and gives all the rows when
    it returned 50. *)
Theorem footprint_slicing (zero : Footprint) (grow : nat → nat → nat)
    (rows : list Footprint) :
  let s := fetchFootprint_slice zero grow rows in
  slice_elems s = rows ∧
  (length rows ≤ 10 → slice_cap s = 10) ∧
  (∃ s10, slice_upto s 10 = Some s10 ∧
          slice_elems s10 = take 10 (rows ++ replicate (10 - length rows) zero) ∧
          length (slice_elems s10) = 10) ∧
  (length rows ≤ 10 → slice_upto s 50 = None) ∧
  (length rows = 50 →
   ∃ s50, slice_upto s 50 = Some s50 ∧ slice_elems s50 = rows).
Proof.
  intros s. unfold s, fetchFootprint_slice.
  destruct (foldl_slice_append zero grow rows) as (c & Hc10 & Hlen & Hsmall & ->).
  unfold slice_upto, slice_elems, slice_cap. simpl.
  rewrite length_app, length_replicate.
  replace (length rows + (c - length rows)) with c by lia.
  split; [by rewrite take_app_length|].
  split; [exact Hsmall|]. split; [|split].
  - rewrite decide_True by done. eexists. split; [done|]. simpl.
    assert (Hten : take 10 (rows ++ replicate (c - length rows) zero)
                   = take 10 (rows ++ replicate (10 - length rows) zero)).
    { destruct (decide (10 ≤ length rows)) as [Hl|Hl].
      - by rewrite !take_app_le by done.
      - rewrite !take_app_ge by lia. f_equal.
        rewrite !take_replicate. f_equal. lia. }
    split; [done|]. rewrite length_take, length_app, length_replicate. lia.
  - intros Hl. rewrite decide_False; [done|]. rewrite (Hsmall Hl). lia.
  - intros Hl. rewrite decide_True by lia. eexists. split; [done|]. simpl.
    rewrite <- Hl. by rewrite take_app_length.
Qed.

Lemma footprint_slicing_witness :
  slice_cap (fetchFootprint_slice (mkFootprint 0 0 0 0) (λ c n, 2 * n)
                                  [visit_3_by_7]) = 10 ∧
  slice_upto (fetchFootprint_slice (mkFootprint 0 0 0 0) (λ c n, 2 * n)
                                   [visit_3_by_7]) 50 = None.
Proof.
  destruct (footprint_slicing (mkFootprint 0 0 0 0) (λ c n, 2 * n) [visit_3_by_7])
    as (_ & Hcap & _ & Hpanic & _).
  split; [apply Hcap | apply Hpanic]; simpl; lia.
Defined.

(** ** The handlers that write to a cache *)


Section HandlerFacts.
Context `{HandlerStore}.

(** X15.  [PostComment] stores the comment whether or not the commenter
    may see the entry.  For a logged-in user and an entry the database
    has, whose owner the mirror knows if the entry is private, the comment
    is written to the database and appended to the recent comments, with
    the entry's owner and visibility, and the handler redirects to the
    entry; when the entry is private and the commenter is neither its
    owner nor a friend of the owner, the page of error 403 is rendered
    first and the same happens. *)
Theorem PostComment_stores (w : World) (sid : Z) (user : User)
    (entryID comment : string) (now : Time) (id userID private : Z)
    (d : DB) (lastId : Z) :
  UserRepo_Get (userRepo w) sid = Some user →
  select_entry (db w) entryID = Some (Some (id, userID, private)) →
  (private = 1%Z → is_Some (UserRepo_Get (userRepo w) userID)) →
  insert_comment (db w) id (User_ID user) comment userID = Some (d, lastId) →
  let c := mkComment lastId id (User_ID user) comment now userID
                     (bool_decide (private = 1%Z)) in
  let refused :=
    bool_decide (private = 1%Z)
    && match UserRepo_Get (userRepo w) userID with
       | Some owner =>
           negb (bool_decide (User_ID owner = User_ID user))
           && negb (FriendRepo_IsFriend (friendRepo w) sid (User_ID owner))
       | None => false
       end in
  ∃ w',
    PostComment (Some sid) entryID comment now w
    = Done ((if refused then [RenderPage 403 "error.html"] else [])
            ++ [RedirectTo (EntryPage id) 303], w') ∧
    db w' = d ∧
    commentCache w' = CommentCache_Insert (commentCache w) c ∧
    last (CommentCache_Get (commentCache w')) = Some c ∧
    (userRepo w', profileRepo w', friendRepo w', entryCache w', footPrintCache w')
    = (userRepo w, profileRepo w, friendRepo w, entryCache w, footPrintCache w).
Proof.
  intros Huser Hentry Howner Hinsert c refused. unfold refused. clear refused.
  run_handler. rewrite Huser, Hentry. simpl.
  destruct (bool_decide (private = 1%Z)) eqn:Hpriv; simpl.
  - apply bool_decide_eq_true in Hpriv.
    destruct (Howner Hpriv) as [owner Ho]. rewrite Ho, Huser. simpl.
    destruct (decide (User_ID owner = User_ID user)) as [Heq|Hne]; simpl.
    + rewrite Huser, Hinsert. simpl.
      rewrite bool_decide_eq_true_2 by done. simpl.
      eexists. split; [reflexivity|]. simpl. repeat (split; [done|]).
      split; [|done]. apply append_trim_last.
    + rewrite bool_decide_eq_false_2 by done. simpl.
      destruct (FriendRepo_IsFriend (friendRepo w) sid (User_ID owner)); simpl.
      * rewrite Huser, Hinsert. simpl.
        eexists. split; [reflexivity|]. simpl. repeat (split; [done|]).
        split; [|done]. apply append_trim_last.
      * rewrite Huser, Hinsert. simpl.
        eexists. split; [reflexivity|]. simpl. repeat (split; [done|]).
        split; [|done]. apply append_trim_last.
  - rewrite Huser, Hinsert. simpl.
    eexists. split; [reflexivity|]. simpl. repeat (split; [done|]).
    split; [|done]. apply append_trim_last.
Qed.

(** X16.  When [PostComment] changes nothing.  Without a session user, or
    with one the mirror does not know, it redirects to the login page;
    for an entry the database does not have it renders the page of error
    404; in both cases the state is as before.  For a private entry whose
    owner the mirror does not know, and when the database refuses the
    query, it panics. *)
Theorem PostComment_without_effect (w : World) (session_user_id : option Z)
    (entryID comment : string) (now : Time) :
  (session_user_id ≫= UserRepo_Get (userRepo w) = None →
   PostComment session_user_id entryID comment now w
   = Done ([RedirectTo LoginPage 302], w)) ∧
  (is_Some (session_user_id ≫= UserRepo_Get (userRepo w)) →
   (select_entry (db w) entryID = Some None →
    PostComment session_user_id entryID comment now w
    = Done ([RenderPage 404 "error.html"], w)) ∧
   (select_entry (db w) entryID = None →
    PostComment session_user_id entryID comment now w = Abort) ∧
   (∀ id userID,
      select_entry (db w) entryID = Some (Some (id, userID, 1%Z)) →
      UserRepo_Get (userRepo w) userID = None →
      PostComment session_user_id entryID comment now w = Abort)).
Proof.
  split.
  - intros Hnone. run_handler.
    destruct session_user_id as [sid|]; simpl in *; [|done]. by rewrite Hnone.
  - intros [user Huser].
    destruct session_user_id as [sid|]; simpl in Huser; [|done].
    split; [|split].
    + intros Hq. run_handler. by rewrite Huser, Hq.
    + intros Hq. run_handler. by rewrite Huser, Hq.
    + intros id userID Hq Howner. run_handler.
      rewrite Huser, Hq. simpl. by rewrite Howner.
Qed.

End HandlerFacts.

Lemma PostComment_stores_witness :
  ∃ w' : @World MemStore,
    @PostComment MemStore MemHandlerStore (Some 2%Z) "1" "hi" 300 private_world
    = Done ([RenderPage 403 "error.html"; RedirectTo (EntryPage 1) 303], w') ∧
    last (CommentCache_Get (commentCache w'))
    = Some (mkComment 1 1 2 "hi" 300 1 true).
Proof.
  destruct (@PostComment_stores MemStore MemHandlerStore private_world 2 bob
              "1" "hi" 300 1 1 1
              (mkMemDB [alice; bob] [] [] [mkComment 1 1 2 "hi" 0 1 false]
                       [mkEntryRow 1 1 1 "secret" 5] [])
              1)
    as (w' & Hrun & _ & _ & Hlast & _).
  - vm_compute. reflexivity.
  - vm_compute. reflexivity.
  - intros _. exists alice. vm_compute. reflexivity.
  - vm_compute. reflexivity.
  - exists w'. split; [|exact Hlast].
    rewrite Hrun. vm_compute. reflexivity.
Defined.

Lemma PostComment_without_effect_witness :
  @PostComment MemStore MemHandlerStore None "1" "hi" 300 private_world
  = Done ([RedirectTo LoginPage 302], private_world) ∧
  @PostComment MemStore MemHandlerStore (Some 2%Z) "7" "hi" 300 private_world
  = Done ([RenderPage 404 "error.html"], private_world).
Proof.
  split.
  - apply (proj1 (@PostComment_without_effect MemStore MemHandlerStore
                    private_world None "1" "hi" 300)).
    reflexivity.
  - apply (proj2 (@PostComment_without_effect MemStore MemHandlerStore
                    private_world (Some 2%Z) "7" "hi" 300)).
    + exists bob. vm_compute. reflexivity.
    + vm_compute. reflexivity.
Defined.


(** ** The bulk load, then the walk of [GetIndex] *)

Section InitThenWalk.
Context `{Store}.

(** X18.  Right after the bulk loads of the windows, the walks of
    [GetIndex] return the first 10 matching items of the Store's own
    newest-first results: the reversal of [Init] and the backward walk
    cancel. *)
Theorem walk_after_init (w : World) (fr : FriendRepo) (userID : Z)
    (erows : list EntryRow) (crows : list Comment) :
  select_recent_entries (db w) = Some erows →
  select_recent_comments (db w) = Some crows →
  (∃ w',
     EntryCache_Init w = Done ((), w') ∧
     entriesOfFriends fr userID (EntryCache_Get (entryCache w'))
     = Some (take 10
               (filter (λ e, FriendRepo_IsFriend fr userID (Entry_UserID e) = true)
                       (EntryCache_of_row <$> erows)))) ∧
  (∃ w',
     CommentCache_Init w = Done ((), w') ∧
     commentsOfFriends fr userID (CommentCache_Get (commentCache w'))
     = Some (take 10
               (filter
                  (λ c, FriendRepo_IsFriend fr userID (Comment_UserID c)
                        && (negb (Comment_private c)
                            || FriendRepo_IsFriend fr userID
                                 (Comment_EntryOwnerID c))
                        = true)
                  crows))).
Proof.
  intros He Hc. split.
  - unfold EntryCache_Init, mbind, M_bind, db_query. rewrite He.
    rewrite EntryCache_load_rev. eexists. split; [reflexivity|].
    simpl. unfold EntryCache_Get. simpl.
    by rewrite entriesOfFriends_spec, rev_involutive.
  - unfold CommentCache_Init, mbind, M_bind, db_query. rewrite Hc.
    rewrite CommentCache_load_rev. eexists. split; [reflexivity|].
    simpl. unfold CommentCache_Get. simpl.
    by rewrite commentsOfFriends_spec, rev_involutive.
Qed.
End InitThenWalk.

Lemma walk_after_init_witness :
  (∃ w' : @World MemStore,
     @EntryCache_Init MemStore sample_world = Done ((), w') ∧
     entriesOfFriends (mkFriendRepo ∅) 1 (EntryCache_Get (entryCache w'))
     = Some [EntryCache_of_row (entry_row 2); EntryCache_of_row (entry_row 1)]) ∧
  (∃ w' : @World MemStore,
     @CommentCache_Init MemStore sample_world = Done ((), w') ∧
     commentsOfFriends (mkFriendRepo ∅) 1 (CommentCache_Get (commentCache w'))
     = Some []).
Proof.
  destruct (@walk_after_init MemStore sample_world (mkFriendRepo ∅) 1
              [entry_row 2; entry_row 1] [comment_no 2; comment_no 1])
    as [(w1 & Hinit1 & Hwalk1) (w2 & Hinit2 & Hwalk2)];
    [vm_compute; reflexivity | vm_compute; reflexivity |].
  split.
  - exists w1. split; [exact Hinit1|]. rewrite Hwalk1. vm_compute. reflexivity.
  - exists w2. split; [exact Hinit2|]. rewrite Hwalk2. vm_compute. reflexivity.
Defined.

Lemma profile_update_get_witness :
  ProfileRepo_Get (ProfileRepo_Update (ProfileRepo_load [profile_old]) 2 profile_new) 1
  = ProfileRepo_Get (ProfileRepo_load [profile_old]) 1.
Proof.
  apply (profile_update_get (ProfileRepo_load [profile_old]) 2
           profile_new profile_new).
  lia.
Defined.

(** ** The friends list of [GetFriends] *)

Lemma friendsMap_snoc (userID : Z) (rows : list RelationRow) (r : RelationRow) :
  friendsMap userID (rows ++ [r])
  = match friendsMap userID rows !! friendID userID r with
    | Some _ => friendsMap userID rows
    | None => <[friendID userID r := rel_createdAt r]> (friendsMap userID rows)
    end.
Proof. unfold friendsMap. by rewrite foldl_snoc. Qed.

(** X19.  The map [GetFriends] builds from the rows of its query holds,
    for every friend id that occurs in a row, the creation time of the
    first such row, which is the most recent one as the query orders the
    rows newest first; it holds nothing for the other ids. *)
Theorem friendsMap_first (userID : Z) (rows : list RelationRow) (f : Z) :
  friendsMap userID rows !! f
  = rel_createdAt <$> head (filter (λ r, friendID userID r = f) rows).
Proof.
  induction rows as [|r rows IH] using rev_ind; [done|].
  rewrite friendsMap_snoc, filter_app, filter_cons, filter_nil.
  destruct (decide (friendID userID r = f)) as [Hf|Hf].
  - rewrite Hf.
    destruct (friendsMap userID rows !! f) as [t|] eqn:Hm.
    + rewrite Hm. rewrite IH in Hm.
      destruct (filter _ rows) as [|r0 l]; [done|]. done.
    + rewrite lookup_insert_eq. rewrite IH in Hm.
      destruct (filter _ rows) as [|r0 l]; [done|]. done.
  - rewrite app_nil_r, <- IH.
    destruct (friendsMap userID rows !! friendID userID r); [done|].
    by rewrite lookup_insert_ne.
Qed.
